(** * Reflect: facility geocoding, matching and distance lookup

    A shallow embedding of the geocode edge function
    ([supabase/functions/geocode/index.ts]), of its [haversine.ts] helper and
    of the Express server, followed by the properties the specification
    states about them.

    JavaScript numbers are doubles.  Wherever a property depends on the
    value of a distance, the code is embedded over binary64 (the kernel's
    primitive floats): the module [IEEE] holds [haversine], [Math.round] and
    the sort and slice of the "nearest" action, and the distance route of
    the server computes its straight-line distance with them.  What
    ECMAScript leaves to the engine (the values of [Math.sin], [Math.cos],
    [**] and [Math.atan2] away from their special cases) is a parameter.

    The handlers of the edge function are read over the real numbers
    ([number := R]), where arithmetic is exact and there is no NaN.  That
    reading serves for which rows are answered, how many, and what is
    written; for the stability of the sort; and for bounding the formula at
    a given pair of points. *)

From Stdlib Require Import Floats ZArith Reals Lra Lia.
From stdpp Require Import base option list strings gmap pretty sorting.

Local Open Scope R_scope.

(** ** Numbers *)

(** A JavaScript number, in the real-number reading. *)
Abbreviation number := R (only parsing).

Module Math.

(** [Math.PI]. *)
Definition PI : number := Rtrigo1.PI.

(** [Math.atan2(y, x)]: the angle of the point (x, y), in (-PI, PI]. *)
Definition atan2 (y x : number) : number :=
  if Rlt_dec 0 x then atan (y / x)
  else if Rlt_dec x 0 then
    (if Rle_dec 0 y then atan (y / x) + PI else atan (y / x) - PI)
  else if Rlt_dec 0 y then PI / 2
  else if Rlt_dec y 0 then - (PI / 2)
  else 0.

(** [Math.round(x)]: the nearest integer, a tie going up; that is,
    floor(x + 1/2). *)
Definition round (x : number) : number := IZR (Int_part (x + / 2)).

End Math.

(** [Math.round(x * 10) / 10], the rounding both handlers apply to a
    distance. *)
Definition round1 (x : number) : number := Math.round (x * 10) / 10.

(** ** haversine.ts *)

Module Haversine.

(** [const R = 3958.8], the Earth radius in miles. *)
Definition Rearth : number := 3958.8.

Definition toRad (deg : number) : number := (deg * Math.PI) / 180.

(** The quantity [a] of the source: the squared half-chord. *)
Definition hav_a (lat1 lng1 lat2 lng2 : number) : number :=
  let dLat := toRad (lat2 - lat1) in
  let dLng := toRad (lng2 - lng1) in
  sin (dLat / 2) ^ 2 +
  cos (toRad lat1) * cos (toRad lat2) * sin (dLng / 2) ^ 2.

(** The formula over the reals; [sqrt] is the real square root, which
    agrees with [Math.sqrt] on the numbers that are not negative. *)
Definition haversine (lat1 lng1 lat2 lng2 : number) : number :=
  let a := hav_a lat1 lng1 lat2 lng2 in
  let c := 2 * Math.atan2 (sqrt a) (sqrt (1 - a)) in
  Rearth * c.

End Haversine.

(** ** Values shared by the handlers *)

(** The outcome of an awaited call: a value, or a thrown [Error] with its
    message. *)
Inductive Completion (A : Type) : Type :=
| Normal (a : A)
| Throw (message : string).
Arguments Normal {A} a.
Arguments Throw {A} message.

(** A JSON value stored under a key of a request body. *)
Inductive json : Type :=
| JNull
| JBool (b : bool)
| JNum (n : number)
| JStr (s : string).

(** [v === true] for the value found under a key ([None]: the key is
    absent, the value is [undefined]). *)
Definition is_true (v : option json) : bool :=
  match v with
  | Some (JBool true) => true
  | _ => false
  end.

(** A string field that passes the [!x] guard: present and not empty. *)
Definition truthy (x : option string) : option string :=
  match x with
  | Some EmptyString => None
  | other => other
  end.

(** A number read where the column may be [null]: arithmetic coerces
    [null] to 0. *)
Definition ToNumber (v : option number) : number := default 0 v.

Module Coords.
Record t : Type := mk { lat : number; lng : number }.
End Coords.

(** The JSON document of the geocoding provider, with every level that the
    code dereferences allowed to be missing. *)
Module Geo.
Record Geometry : Type := mkGeometry { location : option Coords.t }.
Record Result : Type := mkResult { geometry : option Geometry }.
Record Data : Type := mkData {
  status : option string;
  error_message : option string;
  results : option (list Result)
}.
(** What [fetch] resolves to: [res.ok], [res.status] and [res.json()]. *)
Record Response : Type := mkResponse {
  ok : bool;
  http_status : Z;
  json_body : Completion Data
}.
End Geo.

(** ** The geocode edge function (index.ts) *)

Module Facility.
(** Modelled from the spec: a row of [public.facilities].  The table's
    declaration is missing from the sources, apart from the migration that
    adds [lat], [lng] and [geocoded_at]; following the spec's data model the
    row carries an identifier, a region, an address and named boolean
    capabilities ([attrs]; an absent key is a SQL NULL). *)
Record t : Type := mk {
  facility_id : string;
  address : option string;
  state : string;
  lat : option number;
  lng : option number;
  geocoded_at : option string;
  attrs : gmap string bool
}.
End Facility.

Module Body.
(** The parsed request body.  The fields the handlers destructure are read
    at the types the spec gives them; every other key keeps its JSON value
    in [fields]. *)
Record t : Type := mk {
  action : option string;
  facility_id : option string;
  address : option string;
  query : option string;
  state : option string;
  limit : option Z;
  fields : gmap string json
}.
End Body.

(** A facility of the "nearest" answer: [{...f, distance_miles}]. *)
Record Scored : Type := mkScored {
  facility : Facility.t;
  distance_miles : number
}.

Inductive ResponseBody : Type :=
| OkText
| ErrorBody (error : string)
| CoordsBody (lat lng : number) (cached : option bool)
| NearestBody (user_coords : Coords.t) (results : list Scored).

Record Response : Type := mkResponse {
  status : Z;
  body : ResponseBody
}.

Record Request : Type := mkRequest {
  method : string;
  json_body : Completion Body.t
}.

(** What the function reads but does not own: its environment variable, the
    geocoding provider's answer to the request built from an address, faults
    the datastore client reports, and the clock.  An environment stays the
    same over the calls a property speaks of. *)
Record Env : Type := mkEnv {
  GOOGLE_GEOCODING_API_KEY : option string;
  geocoding_api : string -> Completion Geo.Response;
  select_error : option string;
  update_error : option string;
  now : string
}.

(** What a request can change or leave a trace in: the facilities table and
    the log of addresses sent to the geocoding provider. *)
Record World : Type := mkWorld {
  facilities : list Facility.t;
  geocoder_calls : list string
}.

(** A [{ data, error }] answer of the datastore client. *)
Inductive PgResult (A : Type) : Type :=
| PgData (data : A)
| PgError (message : string).
Arguments PgData {A} data.
Arguments PgError {A} message.

(** *** Asynchronous code as a state-and-exception monad *)

Definition Eff (A : Type) : Type := World -> Completion A * World.

Definition ret {A} (a : A) : Eff A := fun w => (Normal a, w).

Definition throw {A} (message : string) : Eff A := fun w => (Throw message, w).

Definition bind {A B} (c : Eff A) (k : A -> Eff B) : Eff B :=
  fun w =>
    match c w with
    | (Normal a, w') => k a w'
    | (Throw m, w') => (Throw m, w')
    end.

Definition lift {A} (c : Completion A) : Eff A := fun w => (c, w).

(** [try { c } catch (err) { h err.message }]; the effects of [c] stay. *)
Definition try_catch {A} (c : Eff A) (h : string -> Eff A) : Eff A :=
  fun w =>
    match c w with
    | (Normal a, w') => (Normal a, w')
    | (Throw m, w') => h m w'
    end.

Notation "'await' x <- c ; k" := (bind c (fun x => k))
  (at level 10, x name, c at level 100, k at level 200,
   format "'[v' 'await'  x  <-  c ; '/' k ']'").

(** *** geocodeAddress *)

(** The [TypeError] messages of the runtime for the four dereferences of
    [data.results[0].geometry.location] and [location.lat]. *)
Definition type_error (property : string) : string :=
  "Cannot read properties of undefined (reading '" ++ property ++ "')".

(** [data.results[0].geometry.location], then [{ lat: location.lat, lng:
    location.lng }]. *)
Definition first_location (data : Geo.Data) : Completion Coords.t :=
  match Geo.results data with
  | None => Throw (type_error "0")
  | Some [] => Throw (type_error "geometry")
  | Some (r :: _) =>
      match Geo.geometry r with
      | None => Throw (type_error "location")
      | Some g =>
          match Geo.location g with
          | None => Throw (type_error "lat")
          | Some location =>
              Normal (Coords.mk (Coords.lat location) (Coords.lng location))
          end
      end
  end.

(** [await fetch(url)]: one call to the provider, recorded in the log. *)
Definition fetch_geocode (env : Env) (address : string) : Eff Geo.Response :=
  fun w =>
    (geocoding_api env address,
     mkWorld (facilities w) (geocoder_calls w ++ [address])).

Definition geocodeAddress (env : Env) (address : string) : Eff Coords.t :=
  match truthy (GOOGLE_GEOCODING_API_KEY env) with
  | None => throw "GOOGLE_GEOCODING_API_KEY is not set"
  | Some apiKey =>
      await res <- fetch_geocode env address;
      if negb (Geo.ok res) then
        throw ("Google Geocoding API returned HTTP " ++ pretty (Geo.http_status res))
      else
        await data <- lift (Geo.json_body res);
        if decide (Geo.status data = Some "REQUEST_DENIED") then
          throw ("Google Geocoding API request denied: " ++
                 default "unknown reason" (Geo.error_message data))
        else if decide (Geo.status data = Some "ZERO_RESULTS") then
          throw "ZERO_RESULTS: no location found for the given address"
        else if decide (Geo.status data = Some "OK") then
          lift (first_location data)
        else
          throw ("Google Geocoding API status: " ++
                 default "undefined" (Geo.status data))
  end.

(** *** The datastore client *)

(** The message of [.single()] when the filter does not select exactly one
    row. *)
Definition single_row_error : string :=
  "JSON object requested, multiple (or no) rows returned".

(** [from("facilities").select("lat, lng").eq("facility_id", id).single()] *)
Definition select_lat_lng (env : Env) (id : string)
  : Eff (PgResult (option number * option number)) :=
  fun w =>
    match select_error env with
    | Some m => (Normal (PgError m), w)
    | None =>
        match filter (fun f => Facility.facility_id f = id) (facilities w) with
        | [f] => (Normal (PgData (Facility.lat f, Facility.lng f)), w)
        | _ => (Normal (PgError single_row_error), w)
        end
    end.

(** The row after [update({ lat, lng, geocoded_at })]. *)
Definition set_coords (coords : Coords.t) (at_ : string) (f : Facility.t)
  : Facility.t :=
  Facility.mk (Facility.facility_id f) (Facility.address f) (Facility.state f)
    (Some (Coords.lat coords)) (Some (Coords.lng coords)) (Some at_)
    (Facility.attrs f).

(** [from("facilities").update({...}).eq("facility_id", id)]; the answer is
    its [error]. *)
Definition update_coords (env : Env) (id : string) (coords : Coords.t)
  : Eff (option string) :=
  fun w =>
    match update_error env with
    | Some m => (Normal (Some m), w)
    | None =>
        (Normal None,
         mkWorld
           (map (fun f => if decide (Facility.facility_id f = id)
                          then set_coords coords (now env) f else f)
                (facilities w))
           (geocoder_calls w))
    end.

(** A filter of the query builder, and the filters the "nearest" action
    uses. *)
Definition Filter : Type := Facility.t -> bool.

Definition eq_state (s : string) : Filter :=
  fun f => bool_decide (Facility.state f = s).

Definition not_is_null (column : Facility.t -> option number) : Filter :=
  fun f => match column f with Some _ => true | None => false end.

Definition eq_true (key : string) : Filter :=
  fun f => bool_decide (Facility.attrs f !! key = Some true).

(** The rows that pass every filter of a query, in table order. *)
Definition rows_matching (q : list Filter) (table : list Facility.t)
  : list Facility.t :=
  List.filter (fun f => forallb (fun p => p f) q) table.

(** [await q] for a [select("*")] query. *)
Definition run_query (env : Env) (q : list Filter)
  : Eff (PgResult (list Facility.t)) :=
  fun w =>
    match select_error env with
    | Some m => (Normal (PgError m), w)
    | None => (Normal (PgData (rows_matching q (facilities w))), w)
    end.

(** *** Array methods *)

(** [Array.prototype.sort(comparefn)]: a stable sort; [x] goes after [y]
    exactly when [comparefn(x, y) > 0]. *)
Fixpoint insert_by {A} (comparefn : A -> A -> number) (x : A) (l : list A)
  : list A :=
  match l with
  | [] => [x]
  | y :: l' =>
      if Rlt_dec 0 (comparefn x y) then y :: insert_by comparefn x l'
      else x :: y :: l'
  end.

Definition sort {A} (comparefn : A -> A -> number) (l : list A) : list A :=
  foldr (insert_by comparefn) [] l.

(** [Array.prototype.slice(0, end)] for an integer [end]: a negative [end]
    counts from the end of the array. *)
Definition slice0 {A} (end_ : Z) (l : list A) : list A :=
  let len := Z.of_nat (length l) in
  let final := if (end_ <? 0)%Z then Z.max (len + end_) 0 else Z.min end_ len in
  take (Z.to_nat final) l.

(** [limit || 30]: 0 is falsy, like an absent limit. *)
Definition limit_or_30 (limit : option Z) : Z :=
  match limit with
  | Some n => if (n =? 0)%Z then 30%Z else n
  | None => 30%Z
  end.

(** *** The three actions *)

Definition respond (status : Z) (body : ResponseBody) : Eff Response :=
  ret (mkResponse status body).

Definition facility_action (env : Env) (body : Body.t) : Eff Response :=
  match truthy (Body.facility_id body), truthy (Body.address body) with
  | Some facility_id, Some address =>
      (* Check cache *)
      await existing <- select_lat_lng env facility_id;
      match existing with
      | PgError fetchError =>
          respond 404 (ErrorBody ("Facility lookup failed: " ++ fetchError))
      | PgData (Some lat, Some lng) =>
          respond 200 (CoordsBody lat lng (Some true))
      | PgData _ =>
          (* Geocode and cache *)
          await coords <- geocodeAddress env address;
          await updateError <- update_coords env facility_id coords;
          match updateError with
          | Some m =>
              respond 500 (ErrorBody ("Failed to cache coordinates: " ++ m))
          | None =>
              respond 200
                (CoordsBody (Coords.lat coords) (Coords.lng coords) (Some false))
          end
      end
  | _, _ => respond 400 (ErrorBody "facility_id and address are required")
  end.

Definition user_action (env : Env) (body : Body.t) : Eff Response :=
  match truthy (Body.query body) with
  | Some query =>
      await coords <- geocodeAddress env query;
      respond 200 (CoordsBody (Coords.lat coords) (Coords.lng coords) None)
  | None => respond 400 (ErrorBody "query is required")
  end.

Definition booleanFilters : list string :=
  [ "telehealth"; "medicaid"; "sliding_scale"; "private_insurance";
    "trauma_care"; "co_occurring"; "serves_veterans"; "serves_lgbtq";
    "serves_children"; "serves_young_adults"; "serves_seniors";
    "cbt"; "dbt"; "emdr" ].

(** The query of the "nearest" action: the three fixed filters, then one
    [eq(key, true)] for each listed key whose body value is [true]. *)
Definition nearest_query (body : Body.t) (state : string) : list Filter :=
  fold_left
    (fun q key => if is_true (Body.fields body !! key) then q ++ [eq_true key] else q)
    booleanFilters
    [eq_state state; not_is_null Facility.lat; not_is_null Facility.lng].

(** The map of the "nearest" action, in the real-number reading.  Over
    binary64 the distance can be NaN, which the reals do not have; the
    order of an answer by distance is stated on [IEEE.nearest_page]. *)
Definition with_distance (userCoords : Coords.t) (f : Facility.t) : Scored :=
  mkScored f
    (round1 (Haversine.haversine (Coords.lat userCoords) (Coords.lng userCoords)
               (ToNumber (Facility.lat f)) (ToNumber (Facility.lng f)))).

Definition by_distance (a b : Scored) : number :=
  distance_miles a - distance_miles b.

Definition nearest_action (env : Env) (body : Body.t) : Eff Response :=
  match truthy (Body.query body), truthy (Body.state body) with
  | Some query, Some state =>
      await userCoords <- geocodeAddress env query;
      await answer <- run_query env (nearest_query body state);
      match answer with
      | PgError dbError =>
          respond 500 (ErrorBody ("Database query failed: " ++ dbError))
      | PgData facilities =>
          let withDistance :=
            slice0 (limit_or_30 (Body.limit body))
              (sort by_distance (map (with_distance userCoords) facilities)) in
          respond 200 (NearestBody userCoords withDistance)
      end
  | _, _ => respond 400 (ErrorBody "query and state are required")
  end.

(** [Deno.serve]: the request handler. *)
Definition serve (env : Env) (req : Request) : Eff Response :=
  if decide (method req = "OPTIONS") then respond 200 OkText
  else
    try_catch
      (await body <- lift (json_body req);
       if decide (Body.action body = Some "facility") then facility_action env body
       else if decide (Body.action body = Some "user") then user_action env body
       else if decide (Body.action body = Some "nearest") then nearest_action env body
       else respond 400
              (ErrorBody ("Unknown action: " ++ default "undefined" (Body.action body))))
      (fun message => respond 500 (ErrorBody message)).

(** ** haversine.ts over binary64 *)

Module IEEE.

Local Open Scope float_scope.

(** [Math.PI] and the source's constants as doubles (the decimal literals
    3.141592653589793 and 3958.8 denote these values). *)
Definition PI : float := 0x1.921fb54442d18p+1.
Definition Rearth : float := 0x1.eed999999999ap+11.

Section Engine.

(** The values the engine computes where ECMAScript only asks for an
    "implementation-approximated" result.  Nothing is assumed of them. *)
Variables sin_fin cos_fin square_fin : float -> float.
Variable atan2_fin : float -> float -> float.

(** [Math.sin]: NaN for NaN and the infinities, the argument itself for a
    zero. *)
Definition Math_sin (x : float) : float :=
  if is_nan x || is_infinity x then nan
  else if is_zero x then x
  else sin_fin x.

(** [Math.cos]: NaN for NaN and the infinities, 1 for a zero. *)
Definition Math_cos (x : float) : float :=
  if is_nan x || is_infinity x then nan
  else if is_zero x then 1
  else cos_fin x.

(** [x ** 2]: NaN for NaN, +Infinity for an infinity, +0 for a zero. *)
Definition pow2 (x : float) : float :=
  if is_nan x then nan
  else if is_infinity x then infinity
  else if is_zero x then 0
  else square_fin x.

(** [Math.atan2]: NaN when either argument is NaN. *)
Definition Math_atan2 (y x : float) : float :=
  if is_nan y || is_nan x then nan else atan2_fin y x.

Definition toRad (deg : float) : float := (deg * PI) / 180.

Definition haversine (lat1 lng1 lat2 lng2 : float) : float :=
  let dLat := toRad (lat2 - lat1) in
  let dLng := toRad (lng2 - lng1) in
  let a :=
    pow2 (Math_sin (dLat / 2)) +
    Math_cos (toRad lat1) * Math_cos (toRad lat2) * pow2 (Math_sin (dLng / 2)) in
  let c := 2 * Math_atan2 (PrimFloat.sqrt a) (PrimFloat.sqrt (1 - a)) in
  Rearth * c.

End Engine.

(** The double that the literal [1e308] denotes. *)
Definition huge : float := 0x1.1ccf385ebc8ap+1023.

(** *** Rounding and serialising a distance *)

(** The double of an integer; exact for the integers below 2^53. *)
Definition of_Z (k : Z) : float :=
  SF2Prim (binary_normalize prec emax k 0 false).

(** [Math.round(x)]: [x] itself when it is NaN, an infinity or an integer
    (a double with a non-negative exponent is one); otherwise
    floor(x + 1/2) computed exactly, with +0 for 0 < x < 1/2 and -0 for
    -1/2 <= x < 0.  For [x] = [m] * 2^[e] with [e] < 0, one half is
    2^(-[e]-1) units of 2^[e]. *)
Definition Math_round (x : float) : float :=
  match Prim2SF x with
  | S754_finite s m e =>
      if (0 <=? e)%Z then x
      else
        let half := (2 ^ (- e - 1))%Z in
        let k := ((cond_Zopp s (Zpos m) + half) / (2 * half))%Z in
        if (k =? 0)%Z then (if s then neg_zero else zero) else of_Z k
  | _ => x
  end.

(** [Math.round(x * 10) / 10], the rounding both handlers apply to a
    distance. *)
Definition round1 (x : float) : float := Math_round (x * 10) / 10.

(** A number as [JSON.stringify] writes it and the client reads it back:
    [null] for NaN and the infinities, 0 for -0. *)
Definition JSON_number (x : float) : option float :=
  if is_nan x || is_infinity x then None
  else if is_zero x then Some 0
  else Some x.

(** *** The sort and the slice of the "nearest" action

    A facility with its [distance_miles], a double that can be NaN. *)
Record Scored : Type := mkScored {
  facility : Facility.t;
  distance_miles : float
}.

(** [(a, b) => a.distance_miles - b.distance_miles] *)
Definition by_distance (a b : Scored) : float :=
  distance_miles a - distance_miles b.

(** [Array.prototype.sort(comparefn)] with a comparator in doubles: [x]
    goes after [y] exactly when [comparefn(x, y) > 0]; a NaN from the
    comparator counts as +0.  With a comparator that is not a consistent
    order (a NaN [distance_miles] makes it one) ECMAScript leaves the
    order to the engine, and this insertion is only one of the orders. *)
Fixpoint insert_by {A} (comparefn : A -> A -> float) (x : A) (l : list A)
  : list A :=
  match l with
  | [] => [x]
  | y :: l' =>
      if 0 <? comparefn x y then y :: insert_by comparefn x l'
      else x :: y :: l'
  end.

Definition sort {A} (comparefn : A -> A -> float) (l : list A) : list A :=
  foldr (insert_by comparefn) [] l.

(** [.sort((a, b) => a.distance_miles - b.distance_miles)
     .slice(0, limit || 30)] *)
Definition nearest_page (limit : option Z) (withDistance : list Scored)
  : list Scored :=
  slice0 (limit_or_30 limit) (sort by_distance withDistance).

End IEEE.

(** ** The Express server: GET /api/distance *)

Module Server.

Local Open Scope float_scope.

(** The Distance Matrix document, every dereferenced level optional. *)
Record Text : Type := mkText { text : option string }.
Record Element : Type := mkElement {
  el_status : option string;
  distance : option Text;
  duration : option Text
}.
Record Row : Type := mkRow { elements : option (list Element) }.
Record MatrixData : Type := mkMatrixData { rows : option (list Row) }.

(** The Geocoding document as the route reads it,
    [d.results?.[0]?.geometry?.location], with its numbers as doubles. *)
Record LatLng : Type := mkLatLng { lat : float; lng : float }.
Record Geometry : Type := mkGeometry { location : option LatLng }.
Record Result : Type := mkResult { geometry : option Geometry }.
Record GeocodeData : Type := mkGeocodeData { results : option (list Result) }.

(** Which of the two geocode lookups. *)
Inductive Lookup : Type := OfOrigin | OfDestination.

(** What the route reads from outside: for each request, the parsed JSON
    that [fetch] and [.json()] give, or the exception they throw; when
    both geocode lookups reject, which of them rejected first; and the
    engine's values of [Math.sin], [Math.cos], [**] and [Math.atan2]. *)
Record Env : Type := mkEnv {
  distance_matrix_api : string -> string -> Completion MatrixData;
  geocoding_api : string -> Completion GeocodeData;
  first_rejection : Lookup;
  sin_fin : float -> float;
  cos_fin : float -> float;
  square_fin : float -> float;
  atan2_fin : float -> float -> float
}.

(** The JSON body of an answer; [straight_miles] as the client reads it. *)
Inductive ReplyBody : Type :=
| ErrorReply (error : string)
| DistanceReply (driving_distance driving_duration : option string)
    (straight_miles : option float) (status : option string).

Record Reply : Type := mkReply {
  code : Z;
  payload : ReplyBody
}.

(** [matrixData.rows?.[0]?.elements?.[0]] *)
Definition first_element (matrixData : MatrixData) : option Element :=
  match rows matrixData with
  | Some (row :: _) =>
      match elements row with
      | Some (element :: _) => Some element
      | _ => None
      end
  | _ => None
  end.

(** [element?.status] *)
Definition status_of (element : option Element) : option string :=
  match element with
  | Some e => el_status e
  | None => None
  end.

(** [element.distance.text] and [element.duration.text] when the status is
    ['OK'], both [null] otherwise; a missing [distance] or [duration] object
    is a [TypeError]. *)
Definition driving (element : option Element)
  : Completion (option string * option string) :=
  match element with
  | Some e =>
      if decide (el_status e = Some "OK") then
        match distance e with
        | None => Throw (type_error "text")
        | Some dist =>
            match duration e with
            | None => Throw (type_error "text")
            | Some dur => Normal (text dist, text dur)
            end
        end
      else Normal (None, None)
  | None => Normal (None, None)
  end.

(** The inner [geocode]: [d.results?.[0]?.geometry?.location], as a
    coordinate pair or [null].  It has no [try]: what [fetch] or [.json()]
    throws, it throws. *)
Definition geocode (env : Env) (address : string) : Completion (option LatLng) :=
  match geocoding_api env address with
  | Throw m => Throw m
  | Normal d =>
      let loc :=
        match results d with
        | Some (r :: _) =>
            match geometry r with
            | Some g => location g
            | None => None
            end
        | _ => None
        end in
      match loc with
      | Some loc => Normal (Some (mkLatLng (lat loc) (lng loc)))
      | None => Normal None
      end
  end.

(** The route's own copy of the formula; it multiplies [R * 2] first. *)
Definition haversine (env : Env) (lat1 lng1 lat2 lng2 : float) : float :=
  let dLat := (lat2 - lat1) * IEEE.PI / 180 in
  let dLng := (lng2 - lng1) * IEEE.PI / 180 in
  let a :=
    IEEE.pow2 (square_fin env) (IEEE.Math_sin (sin_fin env) (dLat / 2)) +
    IEEE.Math_cos (cos_fin env) (lat1 * IEEE.PI / 180) *
    IEEE.Math_cos (cos_fin env) (lat2 * IEEE.PI / 180) *
    IEEE.pow2 (square_fin env) (IEEE.Math_sin (sin_fin env) (dLng / 2)) in
  IEEE.Rearth * 2 *
  IEEE.Math_atan2 (atan2_fin env) (PrimFloat.sqrt a) (PrimFloat.sqrt (1 - a)).

(** [Promise.all([geocode(origin), geocode(destination)])]: both calls are
    made; when one rejects the whole rejects with its reason, and when both
    reject, with the reason of the one that rejected first. *)
Definition geocode_both (env : Env) (origin destination : string)
  : Completion (option LatLng * option LatLng) :=
  match geocode env origin, geocode env destination with
  | Normal originCoords, Normal destCoords => Normal (originCoords, destCoords)
  | Throw m, Normal _ => Throw m
  | Normal _, Throw m => Throw m
  | Throw m_origin, Throw m_destination =>
      match first_rejection env with
      | OfOrigin => Throw m_origin
      | OfDestination => Throw m_destination
      end
  end.

(** The variable [straight_miles]: [null], or the number
    [Math.round(haversine(...) * 10) / 10], which is NaN when [haversine]
    is. *)
Definition straight_line (env : Env) (originCoords destCoords : option LatLng)
  : option float :=
  match originCoords, destCoords with
  | Some o, Some d =>
      Some (IEEE.round1 (haversine env (lat o) (lng o) (lat d) (lng d)))
  | _, _ => None
  end.

(** [straight_miles] in the JSON body. *)
Definition straight_miles_json (straight_miles : option float) : option float :=
  match straight_miles with
  | Some x => IEEE.JSON_number x
  | None => None
  end.

(** The body of the [try] block. *)
Definition distance_lookup (env : Env) (origin destination : string)
  : Completion Reply :=
  match distance_matrix_api env origin destination with
  | Throw m => Throw m
  | Normal matrixData =>
      let element := first_element matrixData in
      let status := status_of element in
      match driving element with
      | Throw m => Throw m
      | Normal (driving_distance, driving_duration) =>
          match geocode_both env origin destination with
          | Throw m => Throw m
          | Normal (originCoords, destCoords) =>
              Normal (mkReply 200
                        (DistanceReply driving_distance driving_duration
                           (straight_miles_json
                              (straight_line env originCoords destCoords))
                           status))
          end
      end
  end.

(** [app.get('/api/distance', ...)] on the query parameters. *)
Definition distance_route (env : Env) (origin destination : option string)
  : Reply :=
  match truthy origin, truthy destination with
  | Some origin, Some destination =>
      match distance_lookup env origin destination with
      | Normal reply => reply
      | Throw message => mkReply 500 (ErrorReply message)
      end
  | _, _ => mkReply 400 (ErrorReply "origin and destination are required")
  end.

End Server.

(** * Vocabulary of the properties *)

(** A facility whose [distance_miles] is a number. *)
Definition not_nan (r : IEEE.Scored) : Prop :=
  is_nan (IEEE.distance_miles r) = false.


(** What one listed key asks of a row: nothing unless the body holds [true]
    under the key. *)
Definition flag_ok (b : Body.t) (f : Facility.t) (key : string) : bool :=
  implb (is_true (Body.fields b !! key)) (eq_true key f).

(** The record that [.eq("facility_id", id).single()] finds. *)
Definition record_of (env : Env) (w : World) (id : string) (f : Facility.t) : Prop :=
  select_error env = None /\
  filter (fun g => Facility.facility_id g = id) (facilities w) = [f].

(** The failures of the geocoder, with the message each one throws. *)
Inductive GeocoderFailure (env : Env) (address : string) : string -> Prop :=
| ConfigurationError :
    truthy (GOOGLE_GEOCODING_API_KEY env) = None ->
    GeocoderFailure env address "GOOGLE_GEOCODING_API_KEY is not set"
| TransientServiceError res :
    is_Some (truthy (GOOGLE_GEOCODING_API_KEY env)) ->
    geocoding_api env address = Normal res ->
    Geo.ok res = false ->
    GeocoderFailure env address
      ("Google Geocoding API returned HTTP " ++ pretty (Geo.http_status res))
| RequestDenied res data :
    is_Some (truthy (GOOGLE_GEOCODING_API_KEY env)) ->
    geocoding_api env address = Normal res ->
    Geo.ok res = true ->
    Geo.json_body res = Normal data ->
    Geo.status data = Some "REQUEST_DENIED" ->
    GeocoderFailure env address
      ("Google Geocoding API request denied: " ++
       default "unknown reason" (Geo.error_message data))
| NoResult res data :
    is_Some (truthy (GOOGLE_GEOCODING_API_KEY env)) ->
    geocoding_api env address = Normal res ->
    Geo.ok res = true ->
    Geo.json_body res = Normal data ->
    Geo.status data = Some "ZERO_RESULTS" ->
    GeocoderFailure env address
      "ZERO_RESULTS: no location found for the given address"
| ProviderError res data :
    is_Some (truthy (GOOGLE_GEOCODING_API_KEY env)) ->
    geocoding_api env address = Normal res ->
    Geo.ok res = true ->
    Geo.json_body res = Normal data ->
    Geo.status data <> Some "REQUEST_DENIED" ->
    Geo.status data <> Some "ZERO_RESULTS" ->
    Geo.status data <> Some "OK" ->
    GeocoderFailure env address
      ("Google Geocoding API status: " ++ default "undefined" (Geo.status data)).


(** ** Sample data *)

(** An engine for the examples.  [Math.sin], [Math.cos] and [Math.atan2]
    are evaluated by their Taylor polynomials in double arithmetic, which
    is accurate to a few units in the last place for coordinates in range;
    [x ** 2] is [x * x]. *)
Module Taylor.

Local Open Scope float_scope.

(** 1 - t/d1 * (1 - t/d2 * (1 - ...)) *)
Fixpoint nested (t : float) (divisors : list float) : float :=
  match divisors with
  | [] => 1
  | d :: divisors => 1 - t / d * nested t divisors
  end.

(** 1/n1 - u * (1/n2 - u * (1/n3 - ...)) *)
Fixpoint alternating (u : float) (odds : list float) : float :=
  match odds with
  | [] => 0
  | n :: odds => 1 / n - u * alternating u odds
  end.

(** x - x^3/3! + x^5/5! - ... *)
Definition sin_fin (x : float) : float :=
  x * nested (x * x)
        [6; 20; 42; 72; 110; 156; 210; 272; 342; 420; 506; 600; 702; 812; 930].

(** 1 - x^2/2! + x^4/4! - ..., kept within [-1, 1]. *)
Definition cos_fin (x : float) : float :=
  let p :=
    nested (x * x)
      [2; 12; 30; 56; 90; 132; 182; 240; 306; 380; 462; 552; 650; 756; 870] in
  if abs p <=? 1 then p else 1.

Definition square_fin (x : float) : float := x * x.

(** atan(t) = 2 atan(t / (1 + sqrt(1 + t^2))) *)
Definition half_angle (t : float) : float :=
  t / (1 + PrimFloat.sqrt (1 + t * t)).

(** t - t^3/3 + t^5/5 - ... after two halvings of the angle. *)
Definition atan (t : float) : float :=
  let t := half_angle (half_angle t) in
  4 * (t * alternating (t * t)
             [1; 3; 5; 7; 9; 11; 13; 15; 17; 19; 21; 23; 25; 27; 29]).

(** For a point of the first quadrant, which is where [haversine] calls
    it. *)
Definition atan2_fin (y x : float) : float :=
  if abs x <? abs y then IEEE.PI / 2 - atan (x / y) else atan (y / x).

End Taylor.

Module Example.

Definition new_york : Coords.t := Coords.mk 40.7128 (-74.0060).
Definition los_angeles : Coords.t := Coords.mk 34.0522 (-118.2437).

(** The provider's answers: a location found, and no location found. *)
Definition found (c : Coords.t) : Completion Geo.Response :=
  Normal (Geo.mkResponse true 200
            (Normal (Geo.mkData (Some "OK") None
                       (Some [Geo.mkResult (Some (Geo.mkGeometry (Some c)))])))).

Definition zero_results : Completion Geo.Response :=
  Normal (Geo.mkResponse true 200
            (Normal (Geo.mkData (Some "ZERO_RESULTS") None (Some [])))).

Definition provider (address : string) : Completion Geo.Response :=
  if decide (address = "Los Angeles, CA") then found los_angeles
  else if decide (address = "Nowhere") then zero_results
  else found new_york.

Definition env : Env :=
  mkEnv (Some "key") provider None None "2026-02-21T00:00:00.000Z".

(** Three facilities: one geocoded in New York, one in New York with only
    a latitude, one geocoded in California. *)
Definition clinic_a : Facility.t :=
  Facility.mk "a" (Some "350 5th Ave, New York, NY") "NY"
    (Some 40.7128) (Some (-74.0060)) (Some "2026-02-01T00:00:00.000Z")
    {[ "telehealth" := true ]}.

Definition clinic_b : Facility.t :=
  Facility.mk "b" (Some "1 Broadway, New York, NY") "NY"
    (Some 40.7) None None
    {[ "telehealth" := true ]}.

Definition clinic_c : Facility.t :=
  Facility.mk "c" (Some "200 N Spring St, Los Angeles, CA") "CA"
    (Some 34.0522) (Some (-118.2437)) (Some "2026-02-01T00:00:00.000Z")
    ∅.

Definition world : World := mkWorld [clinic_a; clinic_b; clinic_c] [].

(** A "nearest" request for New York facilities with telehealth. *)
Definition nearest (limit : option Z) : Request :=
  mkRequest "POST"
    (Normal (Body.mk (Some "nearest") None None (Some "Times Square") (Some "NY")
               limit {[ "telehealth" := JBool true; "medicaid" := JStr "yes" ]})).

(** A "facility" request. *)
Definition resolve_body (id address : string) : Body.t :=
  Body.mk (Some "facility") (Some id) (Some address) None None None ∅.

Definition resolve (id address : string) : Request :=
  mkRequest "POST" (Normal (resolve_body id address)).

(** A fourth facility, in New York with both coordinates. *)
Definition clinic_d : Facility.t :=
  Facility.mk "d" (Some "1 Centre St, New York, NY") "NY"
    (Some 40.7) (Some (-74.0)) (Some "2026-02-01T00:00:00.000Z")
    {[ "telehealth" := true ]}.

(** Three facilities with their [distance_miles], in the order of the
    table, as the map of the "nearest" action hands them to the sort: 2445.6,
    0 and 0.9 miles. *)
Definition scored : list IEEE.Scored :=
  [ IEEE.mkScored clinic_c 0x1.31b3333333333p+11%float;
    IEEE.mkScored clinic_a 0%float;
    IEEE.mkScored clinic_d 0x1.ccccccccccccdp-1%float ].

(** The services behind the distance route: a road answer for every pair,
    and a geocoder that knows every address but "Nowhere".  The doubles are
    those of 40.7128, -74.0060, 34.0522 and -118.2437. *)
Definition road : Server.MatrixData :=
  Server.mkMatrixData
    (Some [Server.mkRow
             (Some [Server.mkElement (Some "OK")
                      (Some (Server.mkText (Some "2,789 mi")))
                      (Some (Server.mkText (Some "41 hours")))])]).

Definition new_york_place : Server.LatLng :=
  Server.mkLatLng 0x1.45b3d07c84b5ep+5%float (-0x1.280624dd2f1aap+6)%float.

Definition los_angeles_place : Server.LatLng :=
  Server.mkLatLng 0x1.106ae7d566cf4p+5%float (-0x1.d8f98c7e28241p+6)%float.

Definition located (place : Server.LatLng) : Completion Server.GeocodeData :=
  Normal (Server.mkGeocodeData
            (Some [Server.mkResult (Some (Server.mkGeometry (Some place)))])).

Definition places (address : string) : Completion Server.GeocodeData :=
  if decide (address = "Nowhere") then Normal (Server.mkGeocodeData (Some []))
  else if decide (address = "Los Angeles, CA") then located los_angeles_place
  else located new_york_place.

(** A server on the engine of the examples. *)
Definition server
    (distance_matrix_api : string -> string -> Completion Server.MatrixData)
    (geocoding_api : string -> Completion Server.GeocodeData)
    (first_rejection : Server.Lookup) : Server.Env :=
  Server.mkEnv distance_matrix_api geocoding_api first_rejection
    Taylor.sin_fin Taylor.cos_fin Taylor.square_fin Taylor.atan2_fin.

Definition server_env : Server.Env :=
  server (fun _ _ => Normal road) places Server.OfOrigin.

End Example.

(** * Properties *)

(** ** The great-circle formula over the reals: New York to Los Angeles

    Bounds on PI, sine and cosine. *)

Section Numeric.

Import Haversine.

Lemma PI_bounds : 3.14159 < PI < 3.1416.
Proof.
  pose proof (PI_2_3_7_ineq 3) as [Hl Hu].
  unfold tg_alt, PI_2_3_7_tg, Ratan_seq in Hl, Hu.
  simpl in Hl, Hu.
  split; lra.
Qed.

Lemma fact_INR_8 : INR (fact 8) = 40320.
Proof. rewrite INR_IZR_INZ. apply f_equal. vm_compute. reflexivity. Qed.
Lemma fact_INR_9 : INR (fact 9) = 362880.
Proof. rewrite INR_IZR_INZ. apply f_equal. vm_compute. reflexivity. Qed.

Lemma sin_lb_poly x : sin_lb x = x - x^3/6 + x^5/120 - x^7/5040.
Proof.
  unfold sin_lb, sin_approx, sin_term. simpl sum_f_R0.
  simpl. field.
Qed.

Lemma cos_lb_poly x : cos_lb x = 1 - x^2/2 + x^4/24 - x^6/720.
Proof.
  unfold cos_lb, cos_approx, cos_term. simpl sum_f_R0.
  simpl. field.
Qed.

Lemma sin_ub_poly x : sin_ub x = x - x^3/6 + x^5/120 - x^7/5040 + x^9/362880.
Proof.
  unfold sin_ub, sin_approx. 
  change (sum_f_R0 (sin_term x) 4) with (sum_f_R0 (sin_term x) 3 + sin_term x 4).
  fold (sin_approx x 3). fold (sin_lb x). rewrite sin_lb_poly.
  unfold sin_term.
  change (2 * 4 + 1)%nat with 9%nat. rewrite fact_INR_9.
  simpl. field.
Qed.

Lemma cos_ub_poly x : cos_ub x = 1 - x^2/2 + x^4/24 - x^6/720 + x^8/40320.
Proof.
  unfold cos_ub, cos_approx. 
  change (sum_f_R0 (cos_term x) 4) with (sum_f_R0 (cos_term x) 3 + cos_term x 4).
  fold (cos_approx x 3). fold (cos_lb x). rewrite cos_lb_poly.
  unfold cos_term.
  change (2 * 4)%nat with 8%nat. rewrite fact_INR_8.
  simpl. field.
Qed.

Lemma sin_between a lo hi :
  0 <= lo -> lo <= a -> a <= hi -> hi <= 3/2 ->
  lo - lo^3/6 + lo^5/120 - lo^7/5040 <= sin a <= hi - hi^3/6 + hi^5/120 - hi^7/5040 + hi^9/362880.
Proof.
  intros H0 H1 H2 H3.
  pose proof PI_bounds as [Hp1 Hp2].
  rewrite <- sin_lb_poly, <- sin_ub_poly.
  split.
  - apply Rle_trans with (sin lo).
    + apply SIN; lra.
    + apply sin_incr_1; lra.
  - apply Rle_trans with (sin hi).
    + apply sin_incr_1; lra.
    + apply SIN; lra.
Qed.

Lemma cos_between a lo hi :
  0 <= lo -> lo <= a -> a <= hi -> hi <= 3/2 ->
  1 - hi^2/2 + hi^4/24 - hi^6/720 <= cos a <= 1 - lo^2/2 + lo^4/24 - lo^6/720 + lo^8/40320.
Proof.
  intros H0 H1 H2 H3.
  pose proof PI_bounds as [Hp1 Hp2].
  rewrite <- cos_lb_poly, <- cos_ub_poly.
  split.
  - apply Rle_trans with (cos hi).
    + apply COS; lra.
    + apply cos_decr_1; lra.
  - apply Rle_trans with (cos lo).
    + apply cos_decr_1; lra.
    + apply COS; lra.
Qed.


Lemma atan2_sqrt_bounds (a L U : R) :
  0 < L -> L <= U -> U <= 3/2 ->
  sin L ^ 2 <= a -> a <= sin U ^ 2 ->
  L <= Math.atan2 (sqrt a) (sqrt (1 - a)) <= U.
Proof.
  intros HL HLU HU Hlo Hhi.
  pose proof PI_bounds as [Hp1 Hp2].
  assert (HsL : 0 < sin L) by (apply sin_gt_0; lra).
  assert (HsU : 0 < sin U) by (apply sin_gt_0; lra).
  assert (HcL : 0 < cos L) by (apply cos_gt_0; lra).
  assert (HcU : 0 < cos U) by (apply cos_gt_0; lra).
  pose proof (sin2_cos2 L) as EL. pose proof (sin2_cos2 U) as EU.
  unfold Rsqr in EL, EU.
  assert (Ha0 : 0 < a) by nra.
  assert (Ha1 : cos U ^ 2 <= 1 - a) by nra.
  assert (Ha2 : 1 - a <= cos L ^ 2) by nra.
  assert (Hq : 0 < sqrt (1 - a)) by (apply sqrt_lt_R0; nra).
  assert (S1 : sin L <= sqrt a).
  { rewrite <- (sqrt_pow2 (sin L)) by lra. now apply sqrt_le_1_alt. }
  assert (S2 : sqrt a <= sin U).
  { rewrite <- (sqrt_pow2 (sin U)) by lra. now apply sqrt_le_1_alt. }
  assert (C1 : cos U <= sqrt (1 - a)).
  { rewrite <- (sqrt_pow2 (cos U)) by lra. now apply sqrt_le_1_alt. }
  assert (C2 : sqrt (1 - a) <= cos L).
  { rewrite <- (sqrt_pow2 (cos L)) by lra. now apply sqrt_le_1_alt. }
  assert (T1 : tan L <= sqrt a / sqrt (1 - a)).
  { unfold tan. apply Rle_trans with (sin L / sqrt (1 - a)).
    - unfold Rdiv. apply Rmult_le_compat_l; [lra|].
      apply Rinv_le_contravar; lra.
    - unfold Rdiv. apply Rmult_le_compat_r; [|lra].
      apply Rlt_le, Rinv_0_lt_compat; lra. }
  assert (T2 : sqrt a / sqrt (1 - a) <= tan U).
  { unfold tan. apply Rle_trans with (sqrt a / cos U).
    - unfold Rdiv. apply Rmult_le_compat_l; [apply sqrt_pos|].
      apply Rinv_le_contravar; lra.
    - unfold Rdiv. apply Rmult_le_compat_r; [|lra].
      apply Rlt_le, Rinv_0_lt_compat; lra. }
  unfold Math.atan2. destruct (Rlt_dec 0 (sqrt (1 - a))) as [_ | n]; [ | lra ].
  pose proof (atan_tan L) as AL. pose proof (atan_tan U) as AU.
  split.
  - rewrite <- AL by lra.
    destruct T1 as [T1 | T1]; [ apply Rlt_le, atan_increasing, T1 | rewrite T1; lra ].
  - rewrite <- AU by lra.
    destruct T2 as [T2 | T2]; [ apply Rlt_le, atan_increasing, T2 | rewrite T2; lra ].
Qed.

(** C8. With the Earth radius 3958.8, the distance from New York
    (40.7128, -74.0060) to Los Angeles (34.0522, -118.2437) is within 5 miles
    of 2445 miles. *)
Theorem haversine_new_york_los_angeles :
  2445 - 5 <= haversine 40.7128 (-74.0060) 34.0522 (-118.2437) <= 2445 + 5.
Proof.
  pose proof PI_bounds as [Hp1 Hp2].
  set (y1 := 6.6606 * PI / 360).
  set (y2 := 44.2377 * PI / 360).
  assert (E : hav_a 40.7128 (-74.0060) 34.0522 (-118.2437) =
              sin y1 ^ 2 + cos (toRad 40.7128) * cos (toRad 34.0522) * sin y2 ^ 2).
  { unfold hav_a.
    replace (toRad (34.0522 - 40.7128) / 2) with (- y1)
      by (unfold toRad, y1, Math.PI; lra).
    replace (toRad (-118.2437 - -74.0060) / 2) with (- y2)
      by (unfold toRad, y2, Math.PI; lra).
    rewrite !sin_neg. ring. }
  assert (Y1 : 0.05812 <= y1 <= 0.05813) by (unfold y1; lra).
  assert (Y2 : 0.38604 <= y2 <= 0.38605) by (unfold y2; lra).
  assert (P1 : 0.71057 <= toRad 40.7128 <= 0.71058)
    by (unfold toRad, Math.PI; lra).
  assert (P2 : 0.59432 <= toRad 34.0522 <= 0.59433)
    by (unfold toRad, Math.PI; lra).
  assert (S1 : 0.05808 <= sin y1 <= 0.05810).
  { pose proof (sin_between y1 0.05812 0.05813) as [A B]; lra. }
  assert (S2 : 0.37652 <= sin y2 <= 0.37654).
  { pose proof (sin_between y2 0.38604 0.38605) as [A B]; lra. }
  assert (C1 : 0.75798 <= cos (toRad 40.7128) <= 0.75800).
  { pose proof (cos_between (toRad 40.7128) 0.71057 0.71058) as [A B]; lra. }
  assert (C2 : 0.82852 <= cos (toRad 34.0522) <= 0.82853).
  { pose proof (cos_between (toRad 34.0522) 0.59432 0.59433) as [A B]; lra. }
  assert (SL : sin 0.30818 <= 0.30333).
  { pose proof (sin_between 0.30818 0.30818 0.30818) as [A B]; lra. }
  assert (SU : 0.30451 <= sin 0.30943).
  { pose proof (sin_between 0.30943 0.30943 0.30943) as [A B]; lra. }
  assert (SL0 : 0 < sin 0.30818) by (apply sin_gt_0; lra).
  assert (A : 0.0924 <= hav_a 40.7128 (-74.0060) 34.0522 (-118.2437) <= 0.09242).
  { rewrite E. revert S1 S2 C1 C2.
    generalize (sin y1) (sin y2) (cos (toRad 40.7128)) (cos (toRad 34.0522)).
    intros s1 s2 c1 c2 S1 S2 C1 C2.
    assert (Q1 : 0.05808 * 0.05808 <= s1 ^ 2 <= 0.05810 * 0.05810) by nra.
    assert (Q2 : 0.37652 * 0.37652 <= s2 ^ 2 <= 0.37654 * 0.37654) by nra.
    assert (CC : 0.75798 * 0.82852 <= c1 * c2 <= 0.75800 * 0.82853) by nra.
    revert Q1 Q2 CC. generalize (s1 ^ 2) (s2 ^ 2) (c1 * c2).
    intros q1 q2 cc Q1 Q2 CC. split; nra. }
  destruct (atan2_sqrt_bounds (hav_a 40.7128 (-74.0060) 34.0522 (-118.2437))
              0.30818 0.30943) as [B1 B2]; try lra; try nra.
  unfold haversine, Rearth. lra.
Qed.

End Numeric.

(** ** Binary64 arithmetic from its specification *)

Section SpecFloatFacts.

Local Open Scope Z_scope.

Abbreviation digits m := (Zpos (digits2_pos m)).

Lemma digits2_pos_bounds (m : positive) :
  2 ^ (digits m - 1) <= Zpos m < 2 ^ digits m.
Proof.
  induction m as [ m IH | m IH | ]; cbn [digits2_pos].
  - rewrite Pos2Z.inj_succ.
    replace (Z.succ (digits m) - 1) with (Z.succ (digits m - 1)) by lia.
    rewrite !Z.pow_succ_r by lia. lia.
  - rewrite Pos2Z.inj_succ.
    replace (Z.succ (digits m) - 1) with (Z.succ (digits m - 1)) by lia.
    rewrite !Z.pow_succ_r by lia. lia.
  - simpl. lia.
Qed.

(** A valid finite double: its exponent is between [emin] and
    [emax - prec], its mantissa has at most 53 bits, and exactly 53 above
    the least exponent. *)
Lemma valid_finite (s : bool) (m : positive) (e : Z) :
  valid_binary (S754_finite s m e) = true ->
  -1074 <= e <= 971 /\ digits m <= 53 /\ (-1074 < e -> digits m = 53).
Proof.
  unfold SpecFloat.valid_binary, bounded, canonical_mantissa.
  change emax with 1024. change prec with 53.
  intro H. apply andb_prop in H as [C B].
  apply Z.eqb_eq in C. apply Z.leb_le in B.
  unfold SpecFloat.fexp, SpecFloat.emin in C. lia.
Qed.

(** *** Shifts *)

Lemma shr_1_m (mrs : shr_record) :
  0 <= shr_m mrs -> shr_m (shr_1 mrs) = shr_m mrs / 2.
Proof.
  destruct mrs as [m r s]. cbn [shr_m].
  destruct m as [ | [ p | p | ] | p ]; intro H; cbn [shr_1 shr_m];
    solve [ lia | reflexivity | Z.div_mod_to_equations; lia ].
Qed.

Lemma iter_pos_shr_1 (p : positive) : forall mrs : shr_record,
  0 <= shr_m mrs -> shr_m (SpecFloat.iter_pos shr_1 p mrs) = shr_m mrs / 2 ^ Zpos p.
Proof.
  induction p as [ p IH | p IH | ]; intros mrs H; cbn [SpecFloat.iter_pos].
  - assert (H1 : 0 <= shr_m (shr_1 mrs)).
    { rewrite shr_1_m by exact H. apply Z.div_pos; lia. }
    assert (H2 : 0 <= shr_m (SpecFloat.iter_pos shr_1 p (shr_1 mrs))).
    { rewrite IH by exact H1. apply Z.div_pos; [ exact H1 | ]. apply Z.pow_pos_nonneg; lia. }
    rewrite IH by exact H2. rewrite IH by exact H1. rewrite shr_1_m by exact H.
    assert (P : 0 < 2 ^ Zpos p) by (apply Z.pow_pos_nonneg; lia).
    rewrite !Z.div_div by lia.
    f_equal. replace (Zpos p~1) with (1 + Zpos p + Zpos p) by lia.
    rewrite !Z.pow_add_r by lia. lia.
  - assert (H2 : 0 <= shr_m (SpecFloat.iter_pos shr_1 p mrs)).
    { rewrite IH by exact H. apply Z.div_pos; [ exact H | ]. apply Z.pow_pos_nonneg; lia. }
    rewrite IH by exact H2. rewrite IH by exact H.
    assert (P : 0 < 2 ^ Zpos p) by (apply Z.pow_pos_nonneg; lia).
    rewrite !Z.div_div by lia.
    f_equal. replace (Zpos p~0) with (Zpos p + Zpos p) by lia.
    rewrite !Z.pow_add_r by lia. lia.
  - now apply shr_1_m.
Qed.

Lemma shr_m_of_loc (m : Z) (l : location) : shr_m (shr_record_of_loc m l) = m.
Proof. now destruct l as [ | [ | | ] ]. Qed.

(** Rounding a positive mantissa to the format never gives zero, and never
    leaves the exponent range from below. *)
Lemma shr_fexp_pos (m e : Z) (l : location) :
  0 < m -> -1074 <= e ->
  0 < shr_m (fst (shr_fexp prec emax m e l)) /\
  -1074 <= snd (shr_fexp prec emax m e l) /\
  e <= snd (shr_fexp prec emax m e l) /\
  snd (shr_fexp prec emax m e l) <= Z.max e (Zdigits2 m + e - 53).
Proof.
  intros Hm He. unfold shr_fexp, shr, fexp, SpecFloat.emin.
  change emax with 1024. change prec with 53.
  destruct m as [ | m | m ]; try lia. cbn [Zdigits2].
  pose proof (digits2_pos_bounds m) as [D _].
  destruct (Z.max (digits m + e - 53) (3 - 1024 - 53) - e) as [ | p | p ] eqn:N;
    cbn [fst snd]; rewrite ?shr_m_of_loc; try lia.
  rewrite iter_pos_shr_1 by (rewrite shr_m_of_loc; lia).
  rewrite shr_m_of_loc.
  assert (Zpos p <= digits m - 1) by lia.
  assert (2 ^ Zpos p <= 2 ^ (digits m - 1)) by (apply Z.pow_le_mono_r; lia).
  assert (P : 0 < 2 ^ Zpos p) by (apply Z.pow_pos_nonneg; lia).
  split; [ | lia ].
  apply Z.div_str_pos. lia.
Qed.

Lemma round_nearest_even_pos (m : Z) (l : location) :
  0 < m -> 0 < round_nearest_even m l.
Proof.
  intro H. destruct l as [ | [ | | ] ]; cbn [round_nearest_even]; try lia.
  destruct (Z.even m); lia.
Qed.

(** The sign class of a result: a number of sign [s] that is not a zero. *)
Definition signed (s : bool) (r : spec_float) : Prop :=
  match r with
  | S754_finite s' _ _ | S754_infinity s' => s' = s
  | _ => False
  end.

Lemma binary_round_aux_signed (s : bool) (m e : Z) (l : location) :
  0 < m -> -1074 <= e -> signed s (binary_round_aux prec emax s m e l).
Proof.
  intros Hm He. unfold binary_round_aux.
  pose proof (shr_fexp_pos m e l Hm He) as (M1 & E1 & _).
  destruct (shr_fexp prec emax m e l) as [mrs1 e1]. cbn [fst snd] in M1, E1.
  pose proof (round_nearest_even_pos (shr_m mrs1) (loc_of_shr_record mrs1) M1) as R.
  pose proof (shr_fexp_pos _ e1 loc_Exact R E1) as (M2 & _).
  destruct (shr_fexp prec emax _ e1 loc_Exact) as [mrs2 e2]. cbn [fst snd] in M2.
  destruct (shr_m mrs2) as [ | p | p ]; try lia.
  now destruct (e2 <=? emax - prec).
Qed.

Lemma shl_align_value (mx : positive) (ex ez : Z) :
  ez <= ex -> Zpos (fst (shl_align mx ex ez)) = Zpos mx * 2 ^ (ex - ez).
Proof.
  intro H. unfold shl_align.
  destruct (ez - ex) as [ | d | d ] eqn:D; cbn [fst].
  - replace (ex - ez) with 0 by lia. lia.
  - lia.
  - replace (ex - ez) with (Zpos d) by lia.
    clear. induction d as [ | d IH ] using Pos.peano_ind.
    + cbn. lia.
    + rewrite Pos.iter_succ, Pos2Z.inj_xO, IH, Pos2Z.inj_succ, Z.pow_succ_r; lia.
Qed.

Lemma shl_align_exponent (mx : positive) (ex ez : Z) :
  snd (shl_align mx ex ez) = Z.min ex ez.
Proof.
  unfold shl_align. destruct (ez - ex) as [ | d | d ] eqn:D; cbn [snd]; lia.
Qed.

Lemma binary_round_signed (s : bool) (m : positive) (e : Z) :
  -1074 <= e -> signed s (binary_round prec emax s m e).
Proof.
  intro He. unfold binary_round.
  pose proof (shl_align_exponent m e (fexp prec emax (digits m + e))) as E.
  destruct (shl_align m e _) as [mz ez]. cbn [snd] in E.
  apply binary_round_aux_signed; [ lia | ].
  unfold fexp, SpecFloat.emin in E. change emax with 1024 in E. change prec with 53 in E.
  lia.
Qed.

(** *** The order of the doubles *)

(** A double that is not NaN, as a whole number of units of 2^-1074; the
    infinities lie beyond every finite double, at 2^2098 units. *)
Definition beyond : Z := 2 ^ 2098.

Definition scaled (x : spec_float) : Z :=
  match x with
  | S754_zero _ | S754_nan => 0
  | S754_finite s m e => cond_Zopp s (Zpos m * 2 ^ (e + 1074))
  | S754_infinity s => cond_Zopp s beyond
  end.

Lemma beyond_pos : 0 < beyond.
Proof. apply Z.pow_pos_nonneg; lia. Qed.

Lemma scaled_finite_bounds (s : bool) (m : positive) (e : Z) :
  valid_binary (S754_finite s m e) = true ->
  0 < Zpos m * 2 ^ (e + 1074) < beyond.
Proof.
  intro V. apply valid_finite in V as (E & D & _).
  pose proof (digits2_pos_bounds m) as [_ U].
  assert (P : 0 < 2 ^ (e + 1074)) by (apply Z.pow_pos_nonneg; lia).
  assert (U' : Zpos m < 2 ^ 53).
  { eapply Z.lt_le_trans; [ exact U | ]. apply Z.pow_le_mono_r; lia. }
  split; [ apply Z.mul_pos_pos; [ reflexivity | exact P ] | ].
  unfold beyond. change 2098 with (53 + 2045).
  rewrite (Z.pow_add_r 2 53 2045) by (clear; lia).
  apply Z.le_lt_trans with (Zpos m * 2 ^ 2045).
  - apply Z.mul_le_mono_nonneg_l; [ clear; lia | ].
    apply Z.pow_le_mono_r; clear - E; lia.
  - apply Z.mul_lt_mono_pos_r; [ | exact U' ].
    apply Z.pow_pos_nonneg; clear; lia.
Qed.

Lemma scaled_lt_exponent (s1 s2 : bool) (m1 m2 : positive) (e1 e2 : Z) :
  valid_binary (S754_finite s1 m1 e1) = true ->
  valid_binary (S754_finite s2 m2 e2) = true ->
  e1 < e2 ->
  Zpos m1 * 2 ^ (e1 + 1074) < Zpos m2 * 2 ^ (e2 + 1074).
Proof.
  intros V1 V2 L.
  apply valid_finite in V1 as (E1 & D1 & _).
  apply valid_finite in V2 as (E2 & _ & D2).
  specialize (D2 ltac:(lia)).
  pose proof (digits2_pos_bounds m1) as [_ U1].
  pose proof (digits2_pos_bounds m2) as [L2 _].
  rewrite D2 in L2. change (53 - 1) with 52 in L2.
  assert (U1' : Zpos m1 < 2 ^ 53).
  { eapply Z.lt_le_trans; [ exact U1 | ]. apply Z.pow_le_mono_r; lia. }
  assert (P : 0 < 2 ^ (e1 + 1074)) by (apply Z.pow_pos_nonneg; lia).
  replace (e2 + 1074) with (1 + (e2 - e1 - 1) + (e1 + 1074)) by lia.
  rewrite (Z.pow_add_r 2 (1 + (e2 - e1 - 1))) by lia.
  rewrite (Z.pow_add_r 2 1) by lia.
  assert (Q : 0 < 2 ^ (e2 - e1 - 1)) by (apply Z.pow_pos_nonneg; lia).
  change (2 ^ 53) with (2 * 2 ^ 52) in U1'. change (2 ^ 1) with 2.
  set (P' := 2 ^ (e1 + 1074)) in *. set (Q' := 2 ^ (e2 - e1 - 1)) in *.
  set (T := 2 ^ 52) in *.
  assert (Zpos m1 * P' < 2 * T * P') by (apply Z.mul_lt_mono_pos_r; lia).
  assert (A1 : T * P' <= Zpos m2 * P') by (apply Z.mul_le_mono_nonneg_r; lia).
  assert (A2 : Zpos m2 * P' * 1 <= Zpos m2 * P' * Q')
    by (apply Z.mul_le_mono_nonneg_l; lia).
  lia.
Qed.

Lemma compare_cont_Eq (m1 m2 : positive) :
  Pos.compare_cont Eq m1 m2 = (Zpos m1 ?= Zpos m2).
Proof. reflexivity. Qed.

(** On valid doubles other than NaN, [SFcompare] is the order of the
    scaled values. *)
Ltac by_compare :=
  first [ apply Z.compare_eq_iff; lia | apply Z.compare_lt_iff; lia
        | apply Z.compare_gt_iff; lia ].

Lemma SFcompare_scaled (x y : spec_float) :
  valid_binary x = true -> valid_binary y = true ->
  x <> S754_nan -> y <> S754_nan ->
  SFcompare x y = Some (scaled x ?= scaled y).
Proof.
  intros Vx Vy Nx Ny.
  pose proof beyond_pos as B.
  destruct x as [ sx | sx | | sx mx ex ], y as [ sy | sy | | sy my ey ];
    try congruence; cbn [SFcompare scaled]; f_equal; symmetry;
    try pose proof (scaled_finite_bounds _ _ _ Vx) as Bx;
    try pose proof (scaled_finite_bounds _ _ _ Vy) as By;
    try solve [ reflexivity
              | destruct sx; cbn [cond_Zopp]; by_compare
              | destruct sy; cbn [cond_Zopp]; by_compare
              | destruct sx, sy; cbn [cond_Zopp]; by_compare ].
  assert (P : 0 < 2 ^ (ey + 1074))
    by (apply Z.pow_pos_nonneg; apply valid_finite in Vy; lia).
  destruct sx, sy; cbn [cond_Zopp]; try by_compare.
  - destruct (Z.compare_spec ex ey) as [ -> | L | L ].
    + rewrite compare_cont_Eq.
      destruct (Z.compare_spec (Zpos mx) (Zpos my)) as [ E | L | L ]; cbn [CompOpp].
      * apply Z.compare_eq_iff. rewrite E. reflexivity.
      * apply Z.compare_gt_iff. nia.
      * apply Z.compare_lt_iff. nia.
    + pose proof (scaled_lt_exponent _ _ _ _ _ _ Vx Vy L). by_compare.
    + pose proof (scaled_lt_exponent _ _ _ _ _ _ Vy Vx L). by_compare.
  - destruct (Z.compare_spec ex ey) as [ -> | L | L ].
    + rewrite compare_cont_Eq.
      destruct (Z.compare_spec (Zpos mx) (Zpos my)) as [ E | L | L ].
      * apply Z.compare_eq_iff. rewrite E. reflexivity.
      * apply Z.compare_lt_iff. nia.
      * apply Z.compare_gt_iff. nia.
    + pose proof (scaled_lt_exponent _ _ _ _ _ _ Vx Vy L). by_compare.
    + pose proof (scaled_lt_exponent _ _ _ _ _ _ Vy Vx L). by_compare.
Qed.

Lemma SFltb_zero_signed (r : spec_float) :
  (signed false r -> SFltb (S754_zero false) r = true) /\
  (signed true r -> SFltb (S754_zero false) r = false).
Proof. destruct r as [ | [ | ] | | [ | ] ]; cbn; split; congruence || tauto. Qed.

(** The sign of a difference is the order of its operands. *)
Ltac by_ltb :=
  symmetry; first [ apply Z.ltb_ge; lia | apply Z.ltb_lt; lia ].

Lemma SFsub_positive (x y : spec_float) :
  valid_binary x = true -> valid_binary y = true ->
  x <> S754_nan -> y <> S754_nan ->
  SFltb (S754_zero false) (SF64sub x y) = (scaled y <? scaled x).
Proof.
  intros Vx Vy Nx Ny.
  pose proof beyond_pos as B.
  destruct x as [ sx | sx | | sx mx ex ], y as [ sy | sy | | sy my ey ];
    try congruence; unfold SF64sub; cbn [SFsub scaled];
    try pose proof (scaled_finite_bounds _ _ _ Vx) as Bx;
    try pose proof (scaled_finite_bounds _ _ _ Vy) as By;
    try solve [ destruct sx, sy; reflexivity
              | destruct sx; cbn [negb cond_Zopp SFltb SFcompare]; by_ltb
              | destruct sy; cbn [negb cond_Zopp SFltb SFcompare]; by_ltb
              | destruct sx, sy; cbn [negb cond_Zopp SFltb SFcompare]; by_ltb ].
  pose proof (valid_finite _ _ _ Vx) as (Ex & _).
  pose proof (valid_finite _ _ _ Vy) as (Ey & _).
  cbv zeta.
  set (ez := Z.min ex ey).
  rewrite (shl_align_value mx ex ez) by (unfold ez; lia).
  rewrite (shl_align_value my ey ez) by (unfold ez; lia).
  set (Mx := Zpos mx * 2 ^ (ex - ez)). set (My := Zpos my * 2 ^ (ey - ez)).
  assert (Sx : Zpos mx * 2 ^ (ex + 1074) = Mx * 2 ^ (ez + 1074)).
  { unfold Mx. rewrite <- Z.mul_assoc, <- Z.pow_add_r by (unfold ez; lia).
    f_equal. f_equal. lia. }
  assert (Sy : Zpos my * 2 ^ (ey + 1074) = My * 2 ^ (ez + 1074)).
  { unfold My. rewrite <- Z.mul_assoc, <- Z.pow_add_r by (unfold ez; lia).
    f_equal. f_equal. lia. }
  rewrite Sx, Sy.
  assert (P : 0 < 2 ^ (ez + 1074)) by (apply Z.pow_pos_nonneg; unfold ez; lia).
  assert (E : -1074 <= ez) by (unfold ez; lia).
  set (D := cond_Zopp sx Mx - cond_Zopp sy My).
  assert (S : cond_Zopp sx (Mx * 2 ^ (ez + 1074)) - cond_Zopp sy (My * 2 ^ (ez + 1074))
              = D * 2 ^ (ez + 1074)).
  { unfold D. destruct sx, sy; cbn [cond_Zopp]; lia. }
  destruct D as [ | d | d ] eqn:HD; cbn [binary_normalize].
  - cbn [SFltb SFcompare]. by_ltb.
  - pose proof (binary_round_signed false d ez E) as C.
    apply SFltb_zero_signed in C. rewrite C. symmetry. apply Z.ltb_lt. nia.
  - pose proof (binary_round_signed true d ez E) as C.
    apply SFltb_zero_signed in C. rewrite C. symmetry. apply Z.ltb_ge. nia.
Qed.

End SpecFloatFacts.

(** ** Binary64 arithmetic: signs and symmetry *)

Section SignFacts.

Local Open Scope Z_scope.

Lemma binary_round_aux_opp (s : bool) (m e : Z) (l : location) :
  binary_round_aux prec emax (negb s) m e l
  = SFopp (binary_round_aux prec emax s m e l).
Proof.
  unfold binary_round_aux.
  destruct (shr_fexp prec emax m e l) as [mrs1 e1].
  destruct (shr_fexp prec emax _ e1 loc_Exact) as [mrs2 e2].
  destruct (shr_m mrs2); [ reflexivity | | reflexivity ].
  now destruct (e2 <=? emax - prec).
Qed.

Lemma binary_round_opp (s : bool) (m : positive) (e : Z) :
  binary_round prec emax (negb s) m e = SFopp (binary_round prec emax s m e).
Proof.
  unfold binary_round. destruct (shl_align m e _) as [mz ez].
  apply binary_round_aux_opp.
Qed.

Ltac by_sign :=
  first [ reflexivity
        | apply (binary_round_aux_opp false)
        | apply (binary_round_aux_opp true) ].

Lemma SFmul_opp_l (x y : spec_float) :
  SF64mul (SFopp x) y = SFopp (SF64mul x y).
Proof.
  unfold SF64mul.
  destruct x as [ [ | ] | [ | ] | | [ | ] mx ex ],
           y as [ [ | ] | [ | ] | | [ | ] my ey ];
    cbn [SFopp SFmul xorb negb]; by_sign.
Qed.

Lemma SFmul_comm (x y : spec_float) : SF64mul x y = SF64mul y x.
Proof.
  unfold SF64mul.
  destruct x as [ [ | ] | [ | ] | | [ | ] mx ex ],
           y as [ [ | ] | [ | ] | | [ | ] my ey ];
    cbn [SFmul xorb]; try reflexivity;
    now rewrite (Pos.mul_comm mx my), (Z.add_comm ex ey).
Qed.

Lemma SFdiv_opp_l (x y : spec_float) :
  SF64div (SFopp x) y = SFopp (SF64div x y).
Proof.
  unfold SF64div.
  destruct x as [ [ | ] | [ | ] | | [ | ] mx ex ],
           y as [ [ | ] | [ | ] | | [ | ] my ey ];
    cbn [SFopp SFdiv xorb negb]; try reflexivity;
    destruct (SFdiv_core_binary prec emax (Zpos mx) ex (Zpos my) ey) as [[mz ez] lz];
    by_sign.
Qed.

(** Swapping the operands of a subtraction negates the result, unless both
    results are +0. *)
Lemma SFsub_swap (x y : spec_float) :
  SF64sub y x = SFopp (SF64sub x y) \/
  (SF64sub y x = S754_zero false /\ SF64sub x y = S754_zero false).
Proof.
  unfold SF64sub.
  destruct x as [ [ | ] | [ | ] | | sx mx ex ],
           y as [ [ | ] | [ | ] | | sy my ey ];
    cbn [SFopp SFsub negb]; try (left; reflexivity); try (right; split; reflexivity);
    try (left; now rewrite negb_involutive).
  cbv zeta. rewrite (Z.min_comm ey ex).
  set (ez := Z.min ex ey).
  set (A := cond_Zopp sx (Zpos (fst (shl_align mx ex ez)))).
  set (B := cond_Zopp sy (Zpos (fst (shl_align my ey ez)))).
  replace (B - A) with (- (A - B)) by lia.
  destruct (A - B) as [ | d | d ]; cbn [Z.opp binary_normalize].
  - right. split; reflexivity.
  - left. apply (binary_round_opp false).
  - left. apply (binary_round_opp true).
Qed.

Lemma SFsub_diag (x : spec_float) :
  match x with S754_zero _ | S754_finite _ _ _ => True | _ => False end ->
  SF64sub x x = S754_zero false.
Proof.
  unfold SF64sub. destruct x as [ [ | ] | | | s m e ]; cbn [SFsub]; try tauto.
  intros _. cbv zeta. now rewrite Z.sub_diag.
Qed.

Lemma SFeqb_refl (x : spec_float) : x <> S754_nan -> SFeqb x x = true.
Proof.
  unfold SFeqb, SFcompare.
  destruct x as [ s | [ | ] | | [ | ] m e ]; try reflexivity; try congruence; intros _;
    now rewrite Z.compare_refl, Pos.compare_cont_refl.
Qed.

Local Open Scope float_scope.

Lemma is_nan_true (x : float) : is_nan x = true <-> Prim2SF x = S754_nan.
Proof.
  unfold is_nan. rewrite FloatAxioms.eqb_spec. split.
  - intro H. destruct (Prim2SF x) eqn:E; [ | | reflexivity | ];
      rewrite SFeqb_refl in H by discriminate; discriminate H.
  - intros ->. reflexivity.
Qed.

Lemma is_nan_false (x : float) : is_nan x = false <-> Prim2SF x <> S754_nan.
Proof.
  split.
  - intros H C. apply is_nan_true in C. congruence.
  - intros H. destruct (is_nan x) eqn:E; [ | reflexivity ].
    apply is_nan_true in E. congruence.
Qed.

(** The finite doubles: the zeros, the subnormal and the normal numbers. *)
Definition finite_spec (x : spec_float) : Prop :=
  match x with S754_zero _ | S754_finite _ _ _ => True | _ => False end.

Lemma is_finite_spec (x : float) : is_finite x = true <-> finite_spec (Prim2SF x).
Proof.
  unfold is_finite, is_nan, is_infinity.
  rewrite !FloatAxioms.eqb_spec, FloatAxioms.abs_spec.
  change (Prim2SF infinity) with (S754_infinity false).
  destruct (Prim2SF x) as [ [ | ] | [ | ] | | s m e ] eqn:E;
    cbn [finite_spec SFabs]; rewrite ?SFeqb_refl by discriminate;
    cbn; intuition congruence.
Qed.

Lemma opp_involutive (x : float) : - - x = x.
Proof.
  apply Prim2SF_inj. rewrite !FloatAxioms.opp_spec.
  destruct (Prim2SF x); cbn [SFopp]; now rewrite ?negb_involutive.
Qed.

Lemma mul_opp_l (x y : float) : (- x) * y = - (x * y).
Proof.
  apply Prim2SF_inj. rewrite FloatAxioms.opp_spec, !FloatAxioms.mul_spec, FloatAxioms.opp_spec. apply SFmul_opp_l.
Qed.

Lemma mul_comm (x y : float) : x * y = y * x.
Proof. apply Prim2SF_inj. rewrite !FloatAxioms.mul_spec. apply SFmul_comm. Qed.

Lemma mul_opp_opp (x : float) : (- x) * (- x) = x * x.
Proof.
  rewrite mul_opp_l, (mul_comm x (- x)), mul_opp_l. apply opp_involutive.
Qed.

Lemma div_opp_l (x y : float) : (- x) / y = - (x / y).
Proof.
  apply Prim2SF_inj. rewrite FloatAxioms.opp_spec, !FloatAxioms.div_spec, FloatAxioms.opp_spec. apply SFdiv_opp_l.
Qed.

Lemma sub_swap (x y : float) :
  y - x = - (x - y) \/ (y - x = 0 /\ x - y = 0).
Proof.
  destruct (SFsub_swap (Prim2SF x) (Prim2SF y)) as [H | [H1 H2]].
  - left. apply Prim2SF_inj. now rewrite FloatAxioms.opp_spec, !FloatAxioms.sub_spec.
  - right. split; apply Prim2SF_inj; now rewrite FloatAxioms.sub_spec.
Qed.

Lemma sub_diag (x : float) : is_finite x = true -> x - x = 0.
Proof.
  intro H. apply is_finite_spec in H.
  apply Prim2SF_inj. rewrite FloatAxioms.sub_spec. now apply SFsub_diag.
Qed.

Lemma is_nan_opp (x : float) : is_nan (- x) = is_nan x.
Proof.
  destruct (is_nan x) eqn:E.
  - apply is_nan_true. apply is_nan_true in E. now rewrite FloatAxioms.opp_spec, E.
  - apply is_nan_false. apply is_nan_false in E. rewrite FloatAxioms.opp_spec.
    now destruct (Prim2SF x).
Qed.

Lemma is_infinity_opp (x : float) : is_infinity (- x) = is_infinity x.
Proof.
  unfold is_infinity. rewrite !FloatAxioms.eqb_spec, !FloatAxioms.abs_spec, FloatAxioms.opp_spec.
  now destruct (Prim2SF x).
Qed.

Lemma is_zero_opp (x : float) : is_zero (- x) = is_zero x.
Proof.
  unfold is_zero. rewrite !FloatAxioms.eqb_spec, FloatAxioms.opp_spec.
  change (Prim2SF zero) with (S754_zero false).
  now destruct (Prim2SF x) as [ [ | ] | [ | ] | | [ | ] m e ].
Qed.

(** *** The order of the doubles *)

Definition rank (x : float) : Z := scaled (Prim2SF x).

Lemma leb_rank (x y : float) :
  is_nan x = false -> is_nan y = false -> (x <=? y) = (rank x <=? rank y)%Z.
Proof.
  intros Hx Hy. apply is_nan_false in Hx, Hy.
  rewrite FloatAxioms.leb_spec. unfold SFleb, rank.
  rewrite SFcompare_scaled by auto using Prim2SF_valid.
  unfold Z.leb. now destruct (scaled (Prim2SF x) ?= scaled (Prim2SF y))%Z.
Qed.

Lemma sub_positive (x y : float) :
  is_nan x = false -> is_nan y = false -> (0 <? x - y) = (rank y <? rank x)%Z.
Proof.
  intros Hx Hy. apply is_nan_false in Hx, Hy.
  rewrite FloatAxioms.ltb_spec, FloatAxioms.sub_spec.
  change (Prim2SF 0) with (S754_zero false).
  now apply SFsub_positive; auto using Prim2SF_valid.
Qed.

End SignFacts.

(** ** Products of numbers of magnitude at most 1 *)

Section UnitFacts.

Local Open Scope Z_scope.

Lemma Zdigits2_le (m k : Z) : 0 <= m <= 2 ^ k -> 0 <= k -> Zdigits2 m <= k + 1.
Proof.
  intros [L U] K. destruct m as [ | p | p ]; cbn [Zdigits2]; try lia.
  pose proof (digits2_pos_bounds p) as [D _].
  destruct (Z.le_gt_cases (Zpos (digits2_pos p)) (k + 1)) as [ | G ]; [ assumption | ].
  assert (2 ^ (k + 1) <= 2 ^ (Zpos (digits2_pos p) - 1)) by (apply Z.pow_le_mono_r; lia).
  rewrite Z.pow_add_r in * by lia. change (2 ^ 1) with 2 in *.
  assert (0 < 2 ^ k) by (apply Z.pow_pos_nonneg; lia). lia.
Qed.

Lemma shr_fexp_nonneg (m e : Z) (l : location) :
  0 <= m ->
  0 <= shr_m (fst (shr_fexp prec emax m e l)) <= m /\
  snd (shr_fexp prec emax m e l) <= Z.max e (Z.max (Zdigits2 m + e - 53) (-1074)).
Proof.
  intros Hm. unfold shr_fexp, shr, fexp, SpecFloat.emin.
  change emax with 1024. change prec with 53.
  destruct (Z.max (Zdigits2 m + e - 53) (3 - 1024 - 53) - e) as [ | p | p ] eqn:N;
    cbn [fst snd]; rewrite ?shr_m_of_loc; try lia.
  rewrite iter_pos_shr_1 by (rewrite shr_m_of_loc; lia).
  rewrite shr_m_of_loc.
  assert (P : 0 < 2 ^ Zpos p) by (apply Z.pow_pos_nonneg; lia).
  split; [ | lia ]. split.
  - apply Z.div_pos; lia.
  - apply Z.div_le_upper_bound; [ lia | ]. nia.
Qed.

Lemma round_nearest_even_bounds (m : Z) (l : location) :
  0 <= m -> 0 <= round_nearest_even m l <= m + 1.
Proof.
  intro H. destruct l as [ | [ | | ] ]; cbn [round_nearest_even]; try lia.
  destruct (Z.even m); lia.
Qed.

(** A product whose exponent is at most -104 and whose mantissa has at most
    106 bits is rounded to a finite double. *)
Lemma binary_round_aux_small (s : bool) (m e : Z) :
  0 < m < 2 ^ 106 -> e <= -104 ->
  finite_spec (binary_round_aux prec emax s m e loc_Exact).
Proof.
  intros [M0 M1] E. unfold binary_round_aux.
  pose proof (shr_fexp_nonneg m e loc_Exact ltac:(lia)) as [[A1 A2] A3].
  pose proof (Zdigits2_le m 106 ltac:(lia) ltac:(lia)) as D1.
  destruct (shr_fexp prec emax m e loc_Exact) as [mrs1 e1]. cbn [fst snd] in *.
  pose proof (round_nearest_even_bounds (shr_m mrs1) (loc_of_shr_record mrs1) A1)
    as [R0 R1].
  set (m2 := round_nearest_even (shr_m mrs1) (loc_of_shr_record mrs1)) in *.
  pose proof (shr_fexp_nonneg m2 e1 loc_Exact R0) as [[B1 B2] B3].
  pose proof (Zdigits2_le m2 106 ltac:(lia) ltac:(lia)) as D2.
  destruct (shr_fexp prec emax m2 e1 loc_Exact) as [mrs2 e2]. cbn [fst snd] in *.
  destruct (shr_m mrs2) as [ | p | p ]; [ exact I | | lia ].
  change (emax - prec) with 971.
  destruct (e2 <=? 971) eqn:L; [ exact I | ].
  apply Z.leb_gt in L. lia.
Qed.

Lemma SFleb_abs_one (x : spec_float) :
  SFleb (SFabs x) (S754_finite false 4503599627370496 (-52)) = true ->
  match x with
  | S754_zero _ => True
  | S754_finite _ _ e => e <= -52
  | _ => False
  end.
Proof.
  destruct x as [ s | s | | s m e ]; cbn [SFabs SFleb SFcompare];
    try exact (fun _ => I); try discriminate.
  destruct (Z.compare_spec e (-52)); first [ lia | discriminate ].
Qed.

Lemma SFmul_unit_finite (x y : spec_float) :
  valid_binary x = true -> valid_binary y = true ->
  SFleb (SFabs x) (S754_finite false 4503599627370496 (-52)) = true ->
  SFleb (SFabs y) (S754_finite false 4503599627370496 (-52)) = true ->
  finite_spec (SF64mul x y).
Proof.
  intros Vx Vy Hx Hy. apply SFleb_abs_one in Hx, Hy. unfold SF64mul.
  destruct x as [ sx | sx | | sx mx ex ], y as [ sy | sy | | sy my ey ];
    try contradiction; cbn [SFmul finite_spec]; try exact I.
  apply valid_finite in Vx as (_ & Dx & _). apply valid_finite in Vy as (_ & Dy & _).
  pose proof (digits2_pos_bounds mx) as [_ Ux].
  pose proof (digits2_pos_bounds my) as [_ Uy].
  assert (Ux' : Zpos mx < 2 ^ 53).
  { eapply Z.lt_le_trans; [ exact Ux | ]. apply Z.pow_le_mono_r; lia. }
  assert (Uy' : Zpos my < 2 ^ 53).
  { eapply Z.lt_le_trans; [ exact Uy | ]. apply Z.pow_le_mono_r; lia. }
  apply binary_round_aux_small; [ | lia ].
  rewrite Pos2Z.inj_mul. split; [ lia | ].
  change (2 ^ 106) with (2 ^ 53 * 2 ^ 53).
  apply Z.mul_lt_mono_nonneg; lia.
Qed.

Local Open Scope float_scope.

Lemma mul_unit_finite (x y : float) :
  (abs x <=? 1) = true -> (abs y <=? 1) = true -> is_finite (x * y) = true.
Proof.
  intros Hx Hy. apply is_finite_spec. rewrite FloatAxioms.mul_spec.
  rewrite FloatAxioms.leb_spec, FloatAxioms.abs_spec in Hx, Hy.
  now apply SFmul_unit_finite; auto using Prim2SF_valid.
Qed.

(** Adding a finite number times zero to +0 leaves +0. *)
Lemma add_mul_zero (y : float) : is_finite y = true -> 0 + y * 0 = 0.
Proof.
  intro H. apply is_finite_spec in H. apply Prim2SF_inj.
  rewrite FloatAxioms.add_spec, FloatAxioms.mul_spec.
  change (Prim2SF 0) with (S754_zero false).
  now destruct (Prim2SF y) as [ [ | ] | | | [ | ] m e ].
Qed.

End UnitFacts.


(** ** The great-circle formula over binary64 *)

Section IEEEFacts.

Import IEEE.
Local Open Scope float_scope.

Variables sin_fin cos_fin square_fin : float -> float.
Variable atan2_fin : float -> float -> float.

Lemma nan_of_spec (x : float) : Prim2SF x = S754_nan -> x = nan.
Proof. intro H. apply Prim2SF_inj. now rewrite H. Qed.

Lemma mul_nan_l (x : float) : nan * x = nan.
Proof. apply nan_of_spec. now rewrite mul_spec. Qed.

Lemma mul_nan_r (x : float) : x * nan = nan.
Proof.
  apply nan_of_spec. rewrite mul_spec.
  change (Prim2SF nan) with S754_nan. now destruct (Prim2SF x).
Qed.

Lemma add_nan_r (x : float) : x + nan = nan.
Proof.
  apply nan_of_spec. rewrite add_spec.
  change (Prim2SF nan) with S754_nan. now destruct (Prim2SF x).
Qed.

Lemma sub_nan_r (x : float) : x - nan = nan.
Proof.
  apply nan_of_spec. rewrite sub_spec.
  change (Prim2SF nan) with S754_nan. now destruct (Prim2SF x).
Qed.

Lemma Math_cos_infinity (x : float) :
  is_infinity x = true -> Math_cos cos_fin x = nan.
Proof. unfold Math_cos. intros ->. now rewrite orb_true_r. Qed.

(** Once the sum [a] is NaN, so is the distance. *)
Lemma haversine_tail_nan :
  Rearth * (2 * Math_atan2 atan2_fin (PrimFloat.sqrt nan) (PrimFloat.sqrt (1 - nan)))
  = nan.
Proof. now rewrite sub_nan_r. Qed.

(** C7, amended. [haversine] is a total function of its four numbers, but
    its result is not always finite: whenever the conversion of either
    latitude to radians overflows to an infinity, the result is NaN. *)
Theorem haversine_overflow_is_nan :
  forall lat1 lng1 lat2 lng2 : float,
    is_infinity (toRad lat1) = true \/ is_infinity (toRad lat2) = true ->
    haversine sin_fin cos_fin square_fin atan2_fin lat1 lng1 lat2 lng2 = nan.
Proof.
  intros lat1 lng1 lat2 lng2 H. unfold haversine.
  assert (E : Math_cos cos_fin (toRad lat1) * Math_cos cos_fin (toRad lat2) = nan).
  { destruct H as [H | H]; rewrite (Math_cos_infinity _ H).
    - apply mul_nan_l.
    - apply mul_nan_r. }
  cbv zeta. rewrite E, mul_nan_l, add_nan_r. apply haversine_tail_nan.
Qed.

End IEEEFacts.

(** The latitude 1e308 is a finite double whose conversion to radians
    overflows. *)
Lemma haversine_overflow_is_nan_witness :
  is_infinity (IEEE.toRad IEEE.huge) = true /\
  forall (s c q : float -> float) (t : float -> float -> float),
    IEEE.haversine s c q t IEEE.huge 0 0 0 = nan.
Proof.
  split; [ reflexivity | ].
  intros s c q t. apply haversine_overflow_is_nan. left. reflexivity.
Defined.

(** C7 as stated fails: the four inputs 1e308, 0, 0, 0 are finite, and the
    result is NaN whatever the engine's approximations are. *)
Lemma haversine_finite_inputs_nan_result :
  (is_finite IEEE.huge = true /\ is_finite 0%float = true) /\
  forall (s c q : float -> float) (t : float -> float -> float),
    is_finite (IEEE.haversine s c q t IEEE.huge 0 0 0) = false.
Proof.
  split; [ split; reflexivity | ].
  intros s c q t. vm_compute. reflexivity.
Qed.

(** ** Symmetry of the great-circle distance over binary64 *)

Section Symmetry.

Import IEEE.
Local Open Scope float_scope.

Variables sin_fin cos_fin square_fin : float -> float.
Variable atan2_fin : float -> float -> float.

Lemma toRad_half_opp (d : float) : toRad (- d) / 2 = - (toRad d / 2).
Proof. unfold toRad. now rewrite mul_opp_l, !div_opp_l. Qed.

Lemma Math_sin_opp :
  (forall x, sin_fin (- x) = - sin_fin x) ->
  forall u, Math_sin sin_fin (- u) = - Math_sin sin_fin u.
Proof.
  intros H u. unfold Math_sin.
  rewrite is_nan_opp, is_infinity_opp, is_zero_opp.
  destruct (is_nan u || is_infinity u); [ reflexivity | ].
  destruct (is_zero u); [ reflexivity | apply H ].
Qed.

Lemma pow2_opp :
  (forall x, square_fin (- x) = square_fin x) ->
  forall s, pow2 square_fin (- s) = pow2 square_fin s.
Proof.
  intros H s. unfold pow2.
  rewrite is_nan_opp, is_infinity_opp, is_zero_opp.
  now rewrite H.
Qed.

(** The squared sine of half a difference does not depend on the order of
    the two coordinates. *)
Lemma half_chord_swap (x y : float) :
  (forall x, sin_fin (- x) = - sin_fin x) ->
  (forall x, square_fin (- x) = square_fin x) ->
  pow2 square_fin (Math_sin sin_fin (toRad (y - x) / 2)) =
  pow2 square_fin (Math_sin sin_fin (toRad (x - y) / 2)).
Proof.
  intros Hs Hq. destruct (sub_swap x y) as [-> | [-> ->]]; [ | reflexivity ].
  now rewrite toRad_half_opp, Math_sin_opp, pow2_opp.
Qed.

Lemma toRad_finite (deg : float) :
  is_finite (toRad deg) = true -> is_finite deg = true.
Proof.
  rewrite !is_finite_spec. unfold toRad.
  rewrite FloatAxioms.div_spec, FloatAxioms.mul_spec.
  set (p := Prim2SF PI). vm_compute in p. subst p.
  set (q := Prim2SF 180). vm_compute in q. subst q.
  now destruct (Prim2SF deg) as [ [ | ] | [ | ] | | [ | ] m e ].
Qed.

Lemma Math_cos_unit :
  (forall x, (abs (cos_fin x) <=? 1) = true) ->
  forall u, (abs (Math_cos cos_fin u) <=? 1) = true \/ is_finite u = false.
Proof.
  intros H u. unfold Math_cos, is_finite.
  destruct (is_nan u || is_infinity u); [ now right | left ].
  destruct (is_zero u); [ reflexivity | apply H ].
Qed.

(** C6, amended. Over binary64, on an engine whose [Math.sin] is odd and
    whose squaring is even, [haversine] returns the same double for a pair
    of points and for the swapped pair, NaN included.  The distance from a
    point to itself is 0 when the conversion of its latitude to radians is
    finite and its longitude is finite, on an engine whose [Math.cos] stays
    within [-1, 1] and whose [Math.atan2(0, 1)] is 0. *)
Theorem haversine_symmetric_zero :
  (forall x, sin_fin (- x) = - sin_fin x) ->
  (forall x, square_fin (- x) = square_fin x) ->
  (forall lat1 lng1 lat2 lng2 : float,
     haversine sin_fin cos_fin square_fin atan2_fin lat1 lng1 lat2 lng2 =
     haversine sin_fin cos_fin square_fin atan2_fin lat2 lng2 lat1 lng1) /\
  ((forall x, (abs (cos_fin x) <=? 1) = true) ->
   atan2_fin 0 1 = 0 ->
   forall lat lng : float,
     is_finite (toRad lat) = true -> is_finite lng = true ->
     haversine sin_fin cos_fin square_fin atan2_fin lat lng lat lng = 0).
Proof.
  intros Hs Hq. split.
  - intros lat1 lng1 lat2 lng2. unfold haversine. cbv zeta.
    rewrite (half_chord_swap lat1 lat2 Hs Hq), (half_chord_swap lng1 lng2 Hs Hq).
    now rewrite (mul_comm (Math_cos cos_fin (toRad lat1))).
  - intros Hc Ht lat lng Hlat Hlng. unfold haversine. cbv zeta.
    rewrite (sub_diag lat) by now apply toRad_finite.
    rewrite (sub_diag lng) by exact Hlng.
    change (pow2 square_fin (Math_sin sin_fin (toRad 0 / 2))) with 0.
    destruct (Math_cos_unit Hc (toRad lat)) as [U | U]; [ | congruence ].
    rewrite add_mul_zero by now apply mul_unit_finite.
    change (Math_atan2 atan2_fin (PrimFloat.sqrt 0) (PrimFloat.sqrt (1 - 0)))
      with (atan2_fin 0 1).
    now rewrite Ht.
Qed.

End Symmetry.

(** The engine of the examples is one of these engines. *)
Lemma Taylor_sin_odd (x : float) :
  Taylor.sin_fin (- x) = (- Taylor.sin_fin x)%float.
Proof. unfold Taylor.sin_fin. rewrite mul_opp_opp. apply mul_opp_l. Qed.

Lemma Taylor_square_even (x : float) :
  Taylor.square_fin (- x) = Taylor.square_fin x.
Proof. apply mul_opp_opp. Qed.

Lemma Taylor_cos_unit (x : float) : (abs (Taylor.cos_fin x) <=? 1)%float = true.
Proof.
  unfold Taylor.cos_fin. cbv zeta.
  match goal with |- context [if ?c then _ else _] => destruct c eqn:E end;
    [ exact E | reflexivity ].
Qed.

(** New York and Los Angeles, and New York twice. *)
Lemma haversine_symmetric_zero_witness :
  IEEE.haversine Taylor.sin_fin Taylor.cos_fin Taylor.square_fin Taylor.atan2_fin
    0x1.45b3d07c84b5ep+5 (-0x1.280624dd2f1aap+6)
    0x1.106ae7d566cf4p+5 (-0x1.d8f98c7e28241p+6) =
  IEEE.haversine Taylor.sin_fin Taylor.cos_fin Taylor.square_fin Taylor.atan2_fin
    0x1.106ae7d566cf4p+5 (-0x1.d8f98c7e28241p+6)
    0x1.45b3d07c84b5ep+5 (-0x1.280624dd2f1aap+6)
  /\
  IEEE.haversine Taylor.sin_fin Taylor.cos_fin Taylor.square_fin Taylor.atan2_fin
    0x1.45b3d07c84b5ep+5 (-0x1.280624dd2f1aap+6)
    0x1.45b3d07c84b5ep+5 (-0x1.280624dd2f1aap+6) = 0%float.
Proof.
  refine (match haversine_symmetric_zero
                  Taylor.sin_fin Taylor.cos_fin Taylor.square_fin Taylor.atan2_fin
                  Taylor_sin_odd Taylor_square_even
          with
          | conj symmetric same =>
              conj (symmetric _ _ _ _)
                   (same Taylor_cos_unit eq_refl
                      0x1.45b3d07c84b5ep+5%float (-0x1.280624dd2f1aap+6)%float
                      eq_refl eq_refl)
          end).
Defined.

(** C6 as stated fails: the point (1e308, 0) has finite coordinates, and
    its distance to itself is NaN whatever the engine's approximations
    are; it is not 0, and it does not even equal itself. *)
Lemma haversine_same_point_nan :
  (is_finite IEEE.huge = true /\ is_finite 0%float = true) /\
  forall (s c q : float -> float) (t : float -> float -> float),
    is_nan (IEEE.haversine s c q t IEEE.huge 0 IEEE.huge 0) = true /\
    (IEEE.haversine s c q t IEEE.huge 0 IEEE.huge 0 =? 0)%float = false /\
    (IEEE.haversine s c q t IEEE.huge 0 IEEE.huge 0 =?
     IEEE.haversine s c q t IEEE.huge 0 IEEE.huge 0)%float = false.
Proof.
  split; [ split; reflexivity | ].
  intros s c q t. repeat split; vm_compute; reflexivity.
Qed.

(** ** A NaN between two points in range *)

(** What a correctly rounded engine computes for the points (8, 0) and
    (-8, 180): the sine of half the difference of the latitudes and of half
    the difference of the longitudes, and the cosine of either latitude. *)
Module Antipodal.

Local Open Scope float_scope.

Definition half_dLat : float := -0x1.1df46a2529d39p-3.
Definition half_dLng : float := 0x1.921fb54442d18p+0.
Definition lat_rad : float := 0x1.1df46a2529d39p-3.

Definition sin_half_dLat : float := -0x1.1d06c968d9e19p-3.
Definition sin_half_dLng : float := 1.
Definition cos_lat : float := 0x1.fb046a930947ap-1.

(** An engine with these values. *)
Definition sin_fin (x : float) : float :=
  if x <? 0 then sin_half_dLat else sin_half_dLng.
Definition cos_fin (x : float) : float := cos_lat.

End Antipodal.

Section InRange.

Import IEEE.
Local Open Scope float_scope.

Variables sin_fin cos_fin square_fin : float -> float.
Variable atan2_fin : float -> float -> float.

(** X1. Over binary64 the quantity [a] of [haversine] is not confined to
    [0, 1], and the distance of two points in range can be NaN: between
    (8, 0) and (-8, 180), on an engine whose sine and cosine are correctly
    rounded at the arguments that occur and whose squaring is the product,
    [a] is 1 + 2^-52, the square root of [1 - a] is NaN, and so is the
    distance. *)
Theorem haversine_in_range_nan :
  sin_fin Antipodal.half_dLat = Antipodal.sin_half_dLat ->
  sin_fin Antipodal.half_dLng = Antipodal.sin_half_dLng ->
  cos_fin Antipodal.lat_rad = Antipodal.cos_lat ->
  cos_fin (- Antipodal.lat_rad) = Antipodal.cos_lat ->
  (forall x, square_fin x = x * x) ->
  toRad (-8 - 8) / 2 = Antipodal.half_dLat /\
  toRad (180 - 0) / 2 = Antipodal.half_dLng /\
  toRad 8 = Antipodal.lat_rad /\
  toRad (-8) = - Antipodal.lat_rad /\
  Antipodal.sin_half_dLat * Antipodal.sin_half_dLat +
    Antipodal.cos_lat * Antipodal.cos_lat *
    (Antipodal.sin_half_dLng * Antipodal.sin_half_dLng) = 0x1.0000000000001p+0 /\
  haversine sin_fin cos_fin square_fin atan2_fin 8 0 (-8) 180 = nan.
Proof.
  intros S1 S2 C1 C2 Q.
  repeat (split; [ reflexivity | ]).
  unfold haversine, Math_sin, Math_cos, pow2. cbv zeta.
  change (toRad (-8 - 8) / 2) with Antipodal.half_dLat.
  change (toRad (180 - 0) / 2) with Antipodal.half_dLng.
  change (toRad 8) with Antipodal.lat_rad.
  change (toRad (-8)) with (- Antipodal.lat_rad).
  change (is_nan Antipodal.half_dLat || is_infinity Antipodal.half_dLat) with false.
  change (is_nan Antipodal.half_dLng || is_infinity Antipodal.half_dLng) with false.
  change (is_nan Antipodal.lat_rad || is_infinity Antipodal.lat_rad) with false.
  change (is_nan (- Antipodal.lat_rad) || is_infinity (- Antipodal.lat_rad)) with false.
  change (is_zero Antipodal.half_dLat) with false.
  change (is_zero Antipodal.half_dLng) with false.
  change (is_zero Antipodal.lat_rad) with false.
  change (is_zero (- Antipodal.lat_rad)) with false.
  cbv iota. rewrite S1, S2, C1, C2, !Q.
  reflexivity.
Qed.

End InRange.

Lemma haversine_in_range_nan_witness :
  (IEEE.toRad (-8 - 8) / 2)%float = Antipodal.half_dLat /\
  (IEEE.toRad (180 - 0) / 2)%float = Antipodal.half_dLng /\
  IEEE.toRad 8%float = Antipodal.lat_rad /\
  IEEE.toRad (-8)%float = (- Antipodal.lat_rad)%float /\
  (Antipodal.sin_half_dLat * Antipodal.sin_half_dLat +
   Antipodal.cos_lat * Antipodal.cos_lat *
   (Antipodal.sin_half_dLng * Antipodal.sin_half_dLng))%float
    = 0x1.0000000000001p+0%float /\
  IEEE.haversine Antipodal.sin_fin Antipodal.cos_fin Taylor.square_fin
    Taylor.atan2_fin 8%float 0%float (-8)%float 180%float = nan.
Proof.
  exact (haversine_in_range_nan Antipodal.sin_fin Antipodal.cos_fin
           Taylor.square_fin Taylor.atan2_fin
           eq_refl eq_refl eq_refl eq_refl (fun x => eq_refl)).
Defined.

(** ** Sorting and slicing *)



Section ArrayFacts.

Context {A : Type} (comparefn : A -> A -> R).

Lemma insert_by_Permutation (x : A) (l : list A) :
  insert_by comparefn x l ≡ₚ x :: l.
Proof.
  induction l as [ | y l IH ]; simpl; [ done | ].
  destruct (Rlt_dec 0 (comparefn x y)); [ | done ].
  rewrite IH. apply Permutation_swap.
Qed.

Lemma sort_Permutation (l : list A) : sort comparefn l ≡ₚ l.
Proof.
  induction l as [ | x l IH ]; simpl; [ done | ].
  fold (sort comparefn l). rewrite insert_by_Permutation. now rewrite IH.
Qed.

Lemma length_sort (l : list A) : length (sort comparefn l) = length l.
Proof. now rewrite sort_Permutation. Qed.

Lemma length_slice0 (e : Z) (l : list A) :
  length (slice0 e l) =
  Z.to_nat (if (e <? 0)%Z then Z.max (Z.of_nat (length l) + e) 0
            else Z.min e (Z.of_nat (length l))).
Proof.
  unfold slice0. rewrite length_take.
  destruct (e <? 0)%Z eqn:E; lia.
Qed.

Lemma slice0_subseteq (e : Z) (l : list A) : slice0 e l ⊆ l.
Proof. unfold slice0. apply subseteq_take. Qed.

End ArrayFacts.



(** ** The sort of the "nearest" action over binary64 *)

Section SortFacts.

Local Open Scope float_scope.

(** The order of two facilities by the rank of their distances. *)
Definition rank_le (a b : IEEE.Scored) : Prop :=
  (rank (IEEE.distance_miles a) <= rank (IEEE.distance_miles b))%Z.

Lemma float_insert_by_Permutation {A} (comparefn : A -> A -> float) (x : A)
    (l : list A) :
  IEEE.insert_by comparefn x l ≡ₚ x :: l.
Proof.
  induction l as [ | y l IH ]; simpl; [ done | ].
  destruct (0 <? comparefn x y); [ | done ].
  rewrite IH. apply Permutation_swap.
Qed.

Lemma float_sort_Permutation {A} (comparefn : A -> A -> float) (l : list A) :
  IEEE.sort comparefn l ≡ₚ l.
Proof.
  induction l as [ | x l IH ]; simpl; [ done | ].
  fold (IEEE.sort comparefn l). rewrite float_insert_by_Permutation.
  now rewrite IH.
Qed.

Lemma float_insert_by_sorted (x : IEEE.Scored) (l : list IEEE.Scored) :
  not_nan x -> Forall not_nan l ->
  StronglySorted rank_le l ->
  StronglySorted rank_le (IEEE.insert_by IEEE.by_distance x l).
Proof.
  intros Hx Hl. induction 1 as [ | y l Hs IH Hy ]; simpl.
  - repeat constructor.
  - apply Forall_cons in Hl as [Hny Hl]. unfold IEEE.by_distance at 1.
    rewrite (sub_positive _ _ Hx Hny).
    destruct (rank (IEEE.distance_miles y) <? rank (IEEE.distance_miles x))%Z eqn:E.
    + apply Z.ltb_lt in E.
      constructor; [ now apply IH | ].
      rewrite float_insert_by_Permutation. constructor; [ | exact Hy ].
      unfold rank_le. lia.
    + apply Z.ltb_ge in E.
      constructor; [ now constructor | ].
      constructor; [ exact E | ].
      eapply Forall_impl; [ exact Hy | ].
      unfold rank_le in *. intros z Hz. lia.
Qed.

Lemma float_sort_sorted (l : list IEEE.Scored) :
  Forall not_nan l -> StronglySorted rank_le (IEEE.sort IEEE.by_distance l).
Proof.
  induction l as [ | x l IH ]; intros H; simpl; [ constructor | ].
  apply Forall_cons in H as [Hx Hl].
  fold (IEEE.sort IEEE.by_distance l).
  apply float_insert_by_sorted; [ exact Hx | | now apply IH ].
  now rewrite float_sort_Permutation.
Qed.

Lemma StronglySorted_lookup {A} (R : A -> A -> Prop) (l : list A) :
  StronglySorted R l -> (forall x, x ∈ l -> R x x) ->
  forall (i j : nat) (a b : A),
    (i <= j)%nat -> l !! i = Some a -> l !! j = Some b -> R a b.
Proof.
  induction 1 as [ | x l Hl IH Hx ]; intros Hrefl i j a b Hij Ha Hb.
  - now rewrite lookup_nil in Ha.
  - destruct i as [ | i ], j as [ | j ]; simpl in Ha, Hb.
    + injection Ha as <-. injection Hb as <-. apply Hrefl. left.
    + injection Ha as <-.
      rewrite Forall_forall in Hx. apply Hx.
      now apply list_elem_of_lookup_2 in Hb.
    + lia.
    + apply (IH (fun y Hy => Hrefl y (list_elem_of_further _ _ _ Hy)) i j);
        [ lia | done | done ].
Qed.


(** X12. Without a NaN among the distances, the sort and the slice of the
    "nearest" action keep the nearest facilities: the facilities of the
    page and those left out are together the facilities that were handed
    over, each exactly once, and no facility left out is nearer than a
    facility of the page. *)
Theorem nearest_page_keeps_the_nearest :
  forall (limit : option Z) (withDistance : list IEEE.Scored),
    Forall not_nan withDistance ->
    exists rest,
      IEEE.nearest_page limit withDistance ++ rest ≡ₚ withDistance /\
      forall a b,
        a ∈ IEEE.nearest_page limit withDistance -> b ∈ rest ->
        (IEEE.distance_miles a <=? IEEE.distance_miles b) = true.
Proof.
  intros limit l H. unfold IEEE.nearest_page, slice0.
  set (n := Z.to_nat _).
  exists (drop n (IEEE.sort IEEE.by_distance l)). split.
  - rewrite take_drop. apply float_sort_Permutation.
  - intros a b Ha Hb.
    assert (N : Forall not_nan (IEEE.sort IEEE.by_distance l))
      by now rewrite float_sort_Permutation.
    rewrite Forall_forall in N.
    rewrite (leb_rank _ _ (N a (subseteq_take _ _ _ Ha))
               (N b (subseteq_drop _ _ _ Hb))).
    apply Z.leb_le.
    apply list_elem_of_lookup in Ha as [i Ha], Hb as [j Hb].
    apply lookup_take_Some in Ha as [Ha Hi].
    rewrite lookup_drop in Hb.
    apply (StronglySorted_lookup rank_le _ (float_sort_sorted l H)
             (fun x _ => Z.le_refl _) i (n + j) a b); [ lia | done | done ].
Qed.

End SortFacts.

(** ** The handlers, case by case *)

Ltac break_match_in H :=
  match type of H with
  | context [match ?x with _ => _ end] => destruct x eqn:?
  | context [if ?x then _ else _] => destruct x eqn:?
  end.

Ltac run_eff H :=
  unfold respond, bind, ret, throw, lift, try_catch in H;
  repeat (break_match_in H; simpl in H; try discriminate H);
  simplify_eq.

Ltac now_other_body H Hb :=
  unfold respond, ret in H; simplify_eq; try discriminate Hb.

Lemma geocodeAddress_facilities (env : Env) (address : string) (w : World) :
  facilities (snd (geocodeAddress env address w)) = facilities w.
Proof.
  unfold geocodeAddress, fetch_geocode, bind, throw, lift.
  repeat (case_match; simpl; try done).
Qed.

Lemma facility_action_not_nearest env b w resp w' uc results :
  facility_action env b w = (Normal resp, w') ->
  body resp <> NearestBody uc results.
Proof.
  intros H. unfold facility_action, select_lat_lng, update_coords in H.
  run_eff H; simpl; discriminate.
Qed.

Lemma user_action_not_nearest env b w resp w' uc results :
  user_action env b w = (Normal resp, w') ->
  body resp <> NearestBody uc results.
Proof.
  intros H. unfold user_action in H.
  run_eff H; simpl; discriminate.
Qed.

Lemma nearest_action_inv env b w resp w' uc results :
  nearest_action env b w = (Normal resp, w') ->
  body resp = NearestBody uc results ->
  exists q st,
    truthy (Body.query b) = Some q /\
    truthy (Body.state b) = Some st /\
    geocodeAddress env q w = (Normal uc, w') /\
    select_error env = None /\
    status resp = 200%Z /\
    results =
      slice0 (limit_or_30 (Body.limit b))
        (sort by_distance
           (map (with_distance uc) (rows_matching (nearest_query b st) (facilities w')))).
Proof.
  intros H Hb. unfold nearest_action, run_query in H.
  run_eff H; simpl in Hb; try discriminate Hb.
  injection Hb as <- <-.
  destruct (select_error env) eqn:E; simplify_eq.
  eexists _, _. repeat split; done.
Qed.

Lemma serve_nearest_inv env req w resp w' uc results :
  serve env req w = (Normal resp, w') ->
  body resp = NearestBody uc results ->
  exists b q st,
    json_body req = Normal b /\
    Body.action b = Some "nearest" /\
    truthy (Body.query b) = Some q /\
    truthy (Body.state b) = Some st /\
    geocodeAddress env q w = (Normal uc, w') /\
    select_error env = None /\
    status resp = 200%Z /\
    results =
      slice0 (limit_or_30 (Body.limit b))
        (sort by_distance
           (map (with_distance uc) (rows_matching (nearest_query b st) (facilities w)))).
Proof.
  intros H Hb. unfold serve in H.
  destruct (decide (method req = "OPTIONS")).
  { now_other_body H Hb. }
  unfold try_catch, bind, lift in H.
  destruct (json_body req) as [b | m] eqn:J.
  2: { now_other_body H Hb. }
  destruct (decide (Body.action b = Some "facility")).
  { destruct (facility_action env b w) as [[r | m] w1] eqn:F.
    - simplify_eq. now apply facility_action_not_nearest with (uc := uc) (results := results) in F.
    - now_other_body H Hb. }
  destruct (decide (Body.action b = Some "user")).
  { destruct (user_action env b w) as [[r | m] w1] eqn:F.
    - simplify_eq. now apply user_action_not_nearest with (uc := uc) (results := results) in F.
    - now_other_body H Hb. }
  destruct (decide (Body.action b = Some "nearest")).
  2: { now_other_body H Hb. }
  destruct (nearest_action env b w) as [[r | m] w1] eqn:F.
  2: { now_other_body H Hb. }
  simplify_eq.
  destruct (nearest_action_inv _ _ _ _ _ _ _ F Hb) as (q & st & Q & S & G & E & C & R).
  exists b, q, st. repeat split; try done.
  rewrite R. pose proof (geocodeAddress_facilities env q w) as GF.
  rewrite G in GF. simpl in GF. now rewrite GF.
Qed.

Lemma truthy_Some (x : option string) (s : string) :
  truthy x = Some s -> x = Some s.
Proof. destruct x as [ [ | ] | ]; simpl; congruence. Qed.

(** ** The filters of the "nearest" query *)


Lemma nearest_query_fold (b : Body.t) (f : Facility.t) (keys : list string)
    (q0 : list Filter) :
  forallb (fun p => p f)
    (fold_left
       (fun q key => if is_true (Body.fields b !! key) then q ++ [eq_true key] else q)
       keys q0)
  = forallb (fun p => p f) q0 && forallb (flag_ok b f) keys.
Proof.
  revert q0. induction keys as [ | key keys IH ]; intros q0; simpl.
  - now rewrite andb_true_r.
  - rewrite IH. unfold flag_ok at 2.
    destruct (is_true (Body.fields b !! key)); simpl.
    + rewrite forallb_app. simpl. now rewrite andb_true_r, andb_assoc.
    + done.
Qed.

Lemma nearest_query_passes (b : Body.t) (st : string) (f : Facility.t) :
  forallb (fun p => p f) (nearest_query b st)
  = eq_state st f && not_is_null Facility.lat f && not_is_null Facility.lng f
    && forallb (flag_ok b f) booleanFilters.
Proof.
  unfold nearest_query. rewrite nearest_query_fold. simpl.
  now rewrite andb_true_r, !andb_assoc.
Qed.

Lemma forallb_pointwise {A} (f g : A -> bool) (l : list A) :
  (forall x, f x = g x) -> forallb f l = forallb g l.
Proof.
  intros H. induction l as [ | x l IH ]; simpl; [ done | ].
  now rewrite H, IH.
Qed.

Lemma flag_ok_agree (b b' : Body.t) (f : Facility.t) (keys : list string) :
  (forall key, key ∈ keys ->
     is_true (Body.fields b' !! key) = is_true (Body.fields b !! key)) ->
  forallb (flag_ok b' f) keys = forallb (flag_ok b f) keys.
Proof.
  induction keys as [ | key keys IH ]; intros H; simpl; [ done | ].
  unfold flag_ok at 1 3. rewrite (H key) by left.
  rewrite IH; [ done | ]. intros k Hk. apply H. now right.
Qed.

(** C9. In the "nearest" query a body key acts as a filter only if it is one
    of the fourteen listed keys and its value is exactly [true]: the rows
    kept are those of the region with both coordinates on which every such
    key is true, and two bodies that hold [true] under the same listed keys
    keep the same rows, whatever else they hold. *)
Theorem nearest_filters_only_listed_true :
  forall (b : Body.t) (st : string) (table : list Facility.t),
    rows_matching (nearest_query b st) table =
      List.filter
        (fun f =>
           eq_state st f && not_is_null Facility.lat f && not_is_null Facility.lng f
           && forallb
                (fun key =>
                   match Body.fields b !! key with
                   | Some (JBool true) => eq_true key f
                   | _ => true
                   end)
                booleanFilters)
        table
    /\
    forall b' : Body.t,
      (forall key, key ∈ booleanFilters ->
         (Body.fields b' !! key = Some (JBool true) <->
          Body.fields b !! key = Some (JBool true))) ->
      rows_matching (nearest_query b' st) table =
      rows_matching (nearest_query b st) table.
Proof.
  intros b st table. split.
  - unfold rows_matching. apply List.filter_ext. intros f.
    rewrite nearest_query_passes. f_equal.
    apply forallb_pointwise. intros key. unfold flag_ok, is_true.
    now destruct (Body.fields b !! key) as [ [ | [ | ] | | ] | ].
  - intros b' H. unfold rows_matching. apply List.filter_ext. intros f.
    rewrite !nearest_query_passes. f_equal.
    apply flag_ok_agree. intros key Hkey. specialize (H key Hkey).
    unfold is_true.
    destruct (Body.fields b' !! key) as [ [ | [ | ] | | ] | ],
             (Body.fields b !! key) as [ [ | [ | ] | | ] | ];
      try reflexivity; exfalso; destruct H as [H1 H2];
      try (specialize (H1 eq_refl); discriminate H1);
      try (specialize (H2 eq_refl); discriminate H2).
Qed.


(** X4. The number of facilities in a "nearest" answer, for every integer
    limit: with [m] matching rows it is min(limit, m) for a positive limit,
    min(30, m) for an absent limit or 0, and m - |limit| (or 0 when that is
    negative) for a negative limit. *)
Theorem nearest_answer_length :
  forall env req w resp w' uc results,
    serve env req w = (Normal resp, w') ->
    body resp = NearestBody uc results ->
    exists b st,
      json_body req = Normal b /\
      truthy (Body.state b) = Some st /\
      let m := Z.of_nat (length (rows_matching (nearest_query b st) (facilities w))) in
      Z.of_nat (length results) =
        match Body.limit b with
        | None => Z.min 30 m
        | Some n =>
            if (n =? 0)%Z then Z.min 30 m
            else if (n <? 0)%Z then Z.max (m + n) 0
            else Z.min n m
        end.
Proof.
  intros env req w resp w' uc results H Hb.
  destruct (serve_nearest_inv _ _ _ _ _ _ _ H Hb)
    as (b & q & st & J & _ & _ & S & _ & _ & _ & ->).
  exists b, st. split; [ exact J | ]. split; [ exact S | ].
  cbv zeta. rewrite length_slice0, length_sort, length_map.
  unfold limit_or_30.
  destruct (Body.limit b) as [n | ]; [ | simpl; lia ].
  destruct (n =? 0)%Z eqn:E0; [ simpl; lia | ].
  destruct (n <? 0)%Z eqn:E1; lia.
Qed.

Lemma nearest_answer_length_witness :
  exists b st,
    json_body (Example.nearest (Some (-1)%Z)) = Normal b /\
    truthy (Body.state b) = Some st /\
    let m := Z.of_nat (length (rows_matching (nearest_query b st)
                                 (facilities Example.world))) in
    Z.of_nat (length (@nil Scored)) =
      match Body.limit b with
      | None => Z.min 30 m
      | Some n =>
          if (n =? 0)%Z then Z.min 30 m
          else if (n <? 0)%Z then Z.max (m + n) 0
          else Z.min n m
      end.
Proof.
  exact (nearest_answer_length Example.env (Example.nearest (Some (-1)%Z))
           Example.world _ _ Example.new_york [] eq_refl eq_refl).
Defined.

(** C3. Every facility of a "nearest" answer is a row of the table whose
    state is the state of the request, whose [lat] and [lng] are not null,
    and on which every listed filter key that is [true] in the request is
    true. *)
Theorem nearest_results_match_query :
  forall env req w resp w' uc results,
    serve env req w = (Normal resp, w') ->
    body resp = NearestBody uc results ->
    exists b,
      json_body req = Normal b /\
      forall r, r ∈ results ->
        facility r ∈ facilities w /\
        Body.state b = Some (Facility.state (facility r)) /\
        is_Some (Facility.lat (facility r)) /\
        is_Some (Facility.lng (facility r)) /\
        forall key, key ∈ booleanFilters ->
          Body.fields b !! key = Some (JBool true) ->
          Facility.attrs (facility r) !! key = Some true.
Proof.
  intros env req w resp w' uc results H Hb.
  destruct (serve_nearest_inv _ _ _ _ _ _ _ H Hb)
    as (b & q & st & J & _ & _ & S & _ & _ & _ & ->).
  exists b. split; [ exact J | ]. intros r Hr.
  apply slice0_subseteq in Hr.
  rewrite sort_Permutation in Hr.
  apply list_elem_of_In, in_map_iff in Hr as (f & <- & Hf).
  unfold rows_matching in Hf. apply filter_In in Hf as [Hin Hpass].
  rewrite nearest_query_passes in Hpass.
  apply andb_prop in Hpass as [Hpass Hflags].
  apply andb_prop in Hpass as [Hpass Hlng].
  apply andb_prop in Hpass as [Hstate Hlat].
  simpl. split; [ now apply list_elem_of_In | ].
  split.
  { apply truthy_Some in S. rewrite S. f_equal.
    unfold eq_state in Hstate. now apply bool_decide_eq_true_1 in Hstate. }
  unfold not_is_null in Hlat, Hlng.
  split; [ destruct (Facility.lat f); [ eauto | discriminate ] | ].
  split; [ destruct (Facility.lng f); [ eauto | discriminate ] | ].
  intros key Hkey Htrue.
  rewrite forallb_forall in Hflags.
  apply list_elem_of_In in Hkey. specialize (Hflags key Hkey).
  unfold flag_ok in Hflags. rewrite Htrue in Hflags. simpl in Hflags.
  unfold eq_true in Hflags. now apply bool_decide_eq_true_1 in Hflags.
Qed.

(** ** The "facility" action *)



Lemma geocoder_failure_throws env address m (w : World) :
  GeocoderFailure env address m ->
  exists w', geocodeAddress env address w = (Throw m, w') /\
             facilities w' = facilities w.
Proof.
  intros F. unfold geocodeAddress, fetch_geocode, bind, throw, lift.
  destruct F as [K | res [k K] A O | res data [k K] A O J S
                | res data [k K] A O J S | res data [k K] A O J S1 S2 S3];
    rewrite K; [ eauto | | | | ]; rewrite A, O; simpl; [ eauto | | | ];
    rewrite J.
  - rewrite decide_True by done. eauto.
  - rewrite decide_False by (rewrite S; discriminate).
    rewrite decide_True by done. eauto.
  - rewrite !decide_False by done. eauto.
Qed.

Lemma geocodeAddress_normal env address w coords w' :
  geocodeAddress env address w = (Normal coords, w') ->
  facilities w' = facilities w /\
  geocoder_calls w' = geocoder_calls w ++ [address].
Proof.
  intros H. unfold geocodeAddress, fetch_geocode in H.
  run_eff H; done.
Qed.

(** X2. Geocoding an address for which the provider reports ZERO_RESULTS
    throws the no-location error after one provider call; it never yields a
    coordinate. *)
Theorem zero_results_is_no_coordinate :
  forall env address w res data,
    is_Some (truthy (GOOGLE_GEOCODING_API_KEY env)) ->
    geocoding_api env address = Normal res ->
    Geo.ok res = true ->
    Geo.json_body res = Normal data ->
    Geo.status data = Some "ZERO_RESULTS" ->
    geocodeAddress env address w =
      (Throw "ZERO_RESULTS: no location found for the given address",
       mkWorld (facilities w) (geocoder_calls w ++ [address])).
Proof.
  intros env address w res data [k K] A O J S.
  unfold geocodeAddress, fetch_geocode, bind, throw, lift.
  rewrite K, A, O. simpl. rewrite J.
  rewrite decide_False by (rewrite S; discriminate).
  now rewrite decide_True by done.
Qed.

Lemma zero_results_is_no_coordinate_witness :
  geocodeAddress Example.env "Nowhere" Example.world =
    (Throw "ZERO_RESULTS: no location found for the given address",
     mkWorld (facilities Example.world) ["Nowhere"]).
Proof.
  refine (zero_results_is_no_coordinate Example.env "Nowhere" Example.world
            _ _ _ eq_refl eq_refl eq_refl eq_refl).
  eexists; reflexivity.
Defined.

Lemma select_lat_lng_record env w id f :
  record_of env w id f ->
  select_lat_lng env id w = (Normal (PgData (Facility.lat f, Facility.lng f)), w).
Proof. intros [E F]. unfold select_lat_lng. now rewrite E, F. Qed.

Lemma set_coords_id coords at_ f :
  Facility.facility_id (set_coords coords at_ f) = Facility.facility_id f.
Proof. reflexivity. Qed.

Lemma filter_update_coords (id : string) coords at_ (l : list Facility.t) :
  filter (fun g => Facility.facility_id g = id)
    (map (fun f => if decide (Facility.facility_id f = id)
                   then set_coords coords at_ f else f) l)
  = map (set_coords coords at_) (filter (fun g => Facility.facility_id g = id) l).
Proof.
  induction l as [ | f l IH ]; simpl; [ done | ].
  destruct (decide (Facility.facility_id f = id)) as [E | E].
  - rewrite !filter_cons_True by (rewrite ?set_coords_id; done).
    simpl. now rewrite IH.
  - rewrite !filter_cons_False by done. exact IH.
Qed.

Lemma update_coords_record env w id f coords :
  update_error env = None ->
  record_of env w id f ->
  exists w',
    update_coords env id coords w = (Normal None, w') /\
    geocoder_calls w' = geocoder_calls w /\
    record_of env w' id (set_coords coords (now env) f).
Proof.
  intros U [E F]. unfold update_coords. rewrite U.
  eexists. split; [ reflexivity | ]. split; [ reflexivity | ].
  split; [ exact E | ]. simpl. now rewrite filter_update_coords, F.
Qed.

(** A record with both coordinates is answered from the table: no provider
    call, no write. *)
Lemma facility_cache_hit env b w id addr f la ln :
  truthy (Body.facility_id b) = Some id ->
  truthy (Body.address b) = Some addr ->
  record_of env w id f ->
  Facility.lat f = Some la -> Facility.lng f = Some ln ->
  facility_action env b w =
    (Normal (mkResponse 200 (CoordsBody la ln (Some true))), w).
Proof.
  intros I A R La Ln. unfold facility_action. rewrite I, A.
  unfold bind. rewrite (select_lat_lng_record _ _ _ _ R), La, Ln.
  reflexivity.
Qed.

(** A record that lacks a coordinate goes to the geocoder with the address
    of the request. *)
Lemma facility_cache_miss env b w id addr f :
  truthy (Body.facility_id b) = Some id ->
  truthy (Body.address b) = Some addr ->
  record_of env w id f ->
  Facility.lat f = None \/ Facility.lng f = None ->
  facility_action env b w =
    (await coords <- geocodeAddress env addr;
     await updateError <- update_coords env id coords;
     match updateError with
     | Some m => respond 500 (ErrorBody ("Failed to cache coordinates: " ++ m))
     | None =>
         respond 200 (CoordsBody (Coords.lat coords) (Coords.lng coords) (Some false))
     end) w.
Proof.
  intros I A R N. unfold facility_action. rewrite I, A.
  unfold bind at 1. rewrite (select_lat_lng_record _ _ _ _ R).
  destruct (Facility.lat f), (Facility.lng f); try reflexivity.
  now destruct N.
Qed.

Lemma serve_facility env req w b :
  method req <> "OPTIONS" ->
  json_body req = Normal b ->
  Body.action b = Some "facility" ->
  serve env req w =
    try_catch (facility_action env b)
      (fun message => respond 500 (ErrorBody message)) w.
Proof.
  intros M J A. unfold serve. rewrite decide_False by done.
  unfold try_catch, bind, lift. rewrite J.
  now rewrite decide_True by done.
Qed.

Lemma select_lat_lng_inv env id w la ln w' :
  select_lat_lng env id w = (Normal (PgData (la, ln)), w') ->
  w' = w /\ exists f, record_of env w id f /\
                      Facility.lat f = la /\ Facility.lng f = ln.
Proof.
  unfold select_lat_lng, record_of. intros H.
  destruct (select_error env) eqn:E; [ discriminate H | ].
  destruct (filter _ (facilities w)) as [ | f [ | g l ] ] eqn:F;
    try discriminate H.
  injection H as <- <- <-. eauto 10.
Qed.

Lemma facility_action_coords_inv env b w la ln c w1 :
  facility_action env b w =
    (Normal (mkResponse 200 (CoordsBody la ln (Some c))), w1) ->
  exists id addr f,
    truthy (Body.facility_id b) = Some id /\
    truthy (Body.address b) = Some addr /\
    record_of env w id f /\
    ((c = true /\ Facility.lat f = Some la /\ Facility.lng f = Some ln /\ w1 = w)
     \/
     (c = false /\ (Facility.lat f = None \/ Facility.lng f = None) /\
      update_error env = None /\
      exists wg,
        geocodeAddress env addr w = (Normal (Coords.mk la ln), wg) /\
        update_coords env id (Coords.mk la ln) wg = (Normal None, w1))).
Proof.
  intros H. unfold facility_action in H.
  destruct (truthy (Body.facility_id b)) as [id | ] eqn:I;
    [ | destruct (truthy (Body.address b)); discriminate H ].
  destruct (truthy (Body.address b)) as [addr | ] eqn:A; [ | discriminate H ].
  unfold bind at 1 in H.
  destruct (select_lat_lng env id w) as [[[[la0 ln0] | e] | e] w0] eqn:S;
    try discriminate H.
  apply select_lat_lng_inv in S as (-> & f & R & <- & <-).
  exists id, addr, f. repeat (split; [ done | ]).
  destruct (Facility.lat f) as [la1 | ] eqn:La, (Facility.lng f) as [ln1 | ] eqn:Ln.
  { left. unfold respond, ret in H. now simplify_eq. }
  all: right; unfold bind in H;
    destruct (geocodeAddress env addr w) as [[[la2 ln2] | e] wg] eqn:G;
      try discriminate H;
    destruct (update_coords env id (Coords.mk la2 ln2) wg) as [[[e | ] | e] w2] eqn:U;
      try discriminate H;
    unfold respond, ret in H; simpl in H; simplify_eq;
    (split; [ done | ]); (split; [ tauto | ]);
    (split; [ unfold update_coords in U; destruct (update_error env); [ discriminate U | done ] | ]);
    eauto.
Qed.

Lemma serve_coords_inv env req w la ln c w1 :
  serve env req w = (Normal (mkResponse 200 (CoordsBody la ln (Some c))), w1) ->
  exists b,
    method req <> "OPTIONS" /\
    json_body req = Normal b /\
    Body.action b = Some "facility" /\
    facility_action env b w =
      (Normal (mkResponse 200 (CoordsBody la ln (Some c))), w1).
Proof.
  intros H. unfold serve in H.
  destruct (decide (method req = "OPTIONS")); [ discriminate H | ].
  unfold try_catch, bind, lift in H.
  destruct (json_body req) as [b | m] eqn:J; [ | discriminate H ].
  exists b. repeat (split; [ done | ]).
  destruct (decide (Body.action b = Some "facility")).
  { split; [ done | ].
    destruct (facility_action env b w) as [[r | m] w0]; [ congruence | discriminate H ]. }
  exfalso.
  destruct (decide (Body.action b = Some "user")).
  { destruct (user_action env b w) as [[r | m] w0] eqn:F; [ | discriminate H ].
    injection H as -> ->. unfold user_action in F. run_eff F. }
  destruct (decide (Body.action b = Some "nearest")); [ | discriminate H ].
  destruct (nearest_action env b w) as [[r | m] w0] eqn:F; [ | discriminate H ].
  injection H as -> ->. unfold nearest_action in F. run_eff F.
Qed.

(** C2. Once a call of the "facility" action has answered with a coordinate
    pair, a second call with the same request answers with the same pair,
    marked as cached, and changes nothing: no row is written and no address
    is sent to the geocoding provider. *)
Theorem facility_second_call_is_cached :
  forall env req w la ln c w1,
    serve env req w = (Normal (mkResponse 200 (CoordsBody la ln (Some c))), w1) ->
    serve env req w1 = (Normal (mkResponse 200 (CoordsBody la ln (Some true))), w1)
    /\ geocoder_calls (snd (serve env req w1)) = geocoder_calls w1.
Proof.
  intros env req w la ln c w1 H.
  apply serve_coords_inv in H as (b & M & J & A & H).
  apply facility_action_coords_inv in H as (id & addr & f & I & Ad & R & H).
  assert (S : serve env req w1 =
              (Normal (mkResponse 200 (CoordsBody la ln (Some true))), w1)).
  { rewrite (serve_facility _ _ _ _ M J A). unfold try_catch.
    destruct H as [(-> & La & Ln & ->) | (-> & N & U & wg & G & Up)].
    - now rewrite (facility_cache_hit _ _ _ _ _ _ _ _ I Ad R La Ln).
    - apply geocodeAddress_normal in G as [Gf Gc].
      assert (Rg : record_of env wg id f).
      { destruct R as [E F]. split; [ exact E | now rewrite Gf ]. }
      destruct (update_coords_record env wg id f (Coords.mk la ln) U Rg)
        as (w' & Up' & _ & R').
      rewrite Up in Up'. injection Up' as <-.
      now rewrite (facility_cache_hit _ _ _ _ _ _ la ln I Ad R'). }
  split; [ exact S | now rewrite S ].
Qed.

(** C5. When the geocoder fails (missing credential, non-OK transport
    status, REQUEST_DENIED, ZERO_RESULTS or another non-OK provider status)
    while resolving a facility that lacks a coordinate, the "facility" action
    answers with that failure's message and writes nothing: the facilities
    table is unchanged. *)
Theorem facility_geocoder_failure_no_write :
  forall env req w b id addr f m,
    method req <> "OPTIONS" ->
    json_body req = Normal b ->
    Body.action b = Some "facility" ->
    truthy (Body.facility_id b) = Some id ->
    truthy (Body.address b) = Some addr ->
    record_of env w id f ->
    Facility.lat f = None \/ Facility.lng f = None ->
    GeocoderFailure env addr m ->
    exists w',
      serve env req w = (Normal (mkResponse 500 (ErrorBody m)), w') /\
      facilities w' = facilities w.
Proof.
  intros env req w b id addr f m M J A I Ad R N F.
  destruct (geocoder_failure_throws env addr m w F) as (w' & G & Fw).
  exists w'. split; [ | exact Fw ].
  rewrite (serve_facility _ _ _ _ M J A). unfold try_catch.
  rewrite (facility_cache_miss _ _ _ _ _ _ I Ad R N).
  unfold bind at 1. now rewrite G.
Qed.

(** C10, amended. The "facility" action answers from the table when the
    record has both [lat] and [lng], and only then: when either is null the
    answer is never marked as cached; the action geocodes the address given
    in the request and, when that succeeds, overwrites [lat], [lng] and
    [geocoded_at] of the record with the fresh result. *)
Theorem facility_cache_hit_needs_both :
  forall env req w b id addr f,
    method req <> "OPTIONS" ->
    json_body req = Normal b ->
    Body.action b = Some "facility" ->
    truthy (Body.facility_id b) = Some id ->
    truthy (Body.address b) = Some addr ->
    record_of env w id f ->
    (forall la ln,
       Facility.lat f = Some la -> Facility.lng f = Some ln ->
       serve env req w = (Normal (mkResponse 200 (CoordsBody la ln (Some true))), w))
    /\
    (Facility.lat f = None \/ Facility.lng f = None ->
     forall la ln status w',
       serve env req w <> (Normal (mkResponse status (CoordsBody la ln (Some true))), w'))
    /\
    (Facility.lat f = None \/ Facility.lng f = None ->
     forall coords wg,
       geocodeAddress env addr w = (Normal coords, wg) ->
       update_error env = None ->
       exists w',
         serve env req w =
           (Normal (mkResponse 200
                      (CoordsBody (Coords.lat coords) (Coords.lng coords) (Some false))),
            w') /\
         geocoder_calls w' = geocoder_calls w ++ [addr] /\
         record_of env w' id (set_coords coords (now env) f)).
Proof.
  intros env req w b id addr f M J A I Ad R.
  rewrite (serve_facility _ _ _ _ M J A). unfold try_catch.
  split; [ | split ].
  - intros la ln La Ln.
    now rewrite (facility_cache_hit _ _ _ _ _ _ _ _ I Ad R La Ln).
  - intros N la ln status w'.
    rewrite (facility_cache_miss _ _ _ _ _ _ I Ad R N).
    unfold bind, respond, ret.
    destruct (geocodeAddress env addr w) as [[coords | e] wg]; [ | discriminate ].
    destruct (update_coords env id coords wg) as [[[e | ] | e] w2]; discriminate.
  - intros N coords wg G U.
    rewrite (facility_cache_miss _ _ _ _ _ _ I Ad R N).
    unfold bind at 1. rewrite G.
    apply geocodeAddress_normal in G as [Gf Gc].
    assert (Rg : record_of env wg id f).
    { destruct R as [E F]. split; [ exact E | now rewrite Gf ]. }
    destruct (update_coords_record env wg id f coords U Rg)
      as (w' & Up & Uc & R').
    exists w'. unfold bind. rewrite Up. unfold respond, ret.
    split; [ reflexivity | ]. split; [ now rewrite Uc | exact R' ].
Qed.

(** ** The distance route *)

(** Once the road-distance call has been answered, the route answers by
    the outcome of the two geocode lookups. *)
Lemma distance_route_after_driving env o d origin destination matrixData dd du :
  truthy o = Some origin ->
  truthy d = Some destination ->
  Server.distance_matrix_api env origin destination = Normal matrixData ->
  Server.driving (Server.first_element matrixData) = Normal (dd, du) ->
  Server.distance_route env o d =
    match Server.geocode_both env origin destination with
    | Normal (originCoords, destCoords) =>
        Server.mkReply 200
          (Server.DistanceReply dd du
             (Server.straight_miles_json
                (Server.straight_line env originCoords destCoords))
             (Server.status_of (Server.first_element matrixData)))
    | Throw m => Server.mkReply 500 (Server.ErrorReply m)
    end.
Proof.
  intros O D M Dr. unfold Server.distance_route, Server.distance_lookup.
  rewrite O, D, M, Dr.
  now destruct (Server.geocode_both env origin destination) as [[oc dc] | m].
Qed.

(** C4, amended. On the distance route, when the road-distance call has
    been answered: if both geocode lookups return, the answer is a success
    carrying the driving distance and duration that were obtained, and
    [straight_miles] is [Math.round(d * 10) / 10] for the great-circle
    distance [d] when both yield a coordinate ([null] in the JSON body when
    that number is NaN or infinite), and [null] when either yields none;
    if a lookup throws, the answer is 500 with the message of a lookup that
    threw, and carries no driving figures. *)
Theorem distance_straight_miles :
  forall env o d origin destination matrixData driving_distance driving_duration,
    truthy o = Some origin ->
    truthy d = Some destination ->
    Server.distance_matrix_api env origin destination = Normal matrixData ->
    Server.driving (Server.first_element matrixData)
      = Normal (driving_distance, driving_duration) ->
    (forall originCoords destCoords,
       Server.geocode env origin = Normal originCoords ->
       Server.geocode env destination = Normal destCoords ->
       exists straight_miles,
         Server.distance_route env o d =
           Server.mkReply 200
             (Server.DistanceReply driving_distance driving_duration straight_miles
                (Server.status_of (Server.first_element matrixData))) /\
         match originCoords, destCoords with
         | Some a, Some b =>
             straight_miles =
               IEEE.JSON_number
                 (IEEE.round1
                    (Server.haversine env (Server.lat a) (Server.lng a)
                       (Server.lat b) (Server.lng b)))
         | _, _ => straight_miles = None
         end)
    /\
    (forall m,
       Server.geocode env origin = Throw m \/
       Server.geocode env destination = Throw m ->
       exists m',
         Server.distance_route env o d = Server.mkReply 500 (Server.ErrorReply m') /\
         (Server.geocode env origin = Throw m' \/
          Server.geocode env destination = Throw m')).
Proof.
  intros env o d origin destination matrixData dd du O D M Dr.
  rewrite (distance_route_after_driving _ _ _ _ _ _ _ _ O D M Dr).
  unfold Server.geocode_both. split.
  - intros oc dc -> ->. eexists. split; [ reflexivity | ].
    now destruct oc as [a | ], dc as [b | ].
  - intros m H.
    destruct (Server.geocode env origin) as [oc | mo] eqn:Go,
             (Server.geocode env destination) as [dc | md] eqn:Gd.
    + destruct H as [H | H]; discriminate H.
    + exists md. split; [ reflexivity | now right ].
    + exists mo. split; [ reflexivity | now left ].
    + destruct (Server.first_rejection env).
      * exists mo. split; [ reflexivity | now left ].
      * exists md. split; [ reflexivity | now right ].
Qed.

(** ** The properties on the sample data *)



Lemma nearest_results_match_query_witness :
  exists b,
    json_body (Example.nearest None) = Normal b /\
    forall r, r ∈ [with_distance Example.new_york Example.clinic_a] ->
      facility r ∈ facilities Example.world /\
      Body.state b = Some (Facility.state (facility r)) /\
      is_Some (Facility.lat (facility r)) /\
      is_Some (Facility.lng (facility r)) /\
      forall key, key ∈ booleanFilters ->
        Body.fields b !! key = Some (JBool true) ->
        Facility.attrs (facility r) !! key = Some true.
Proof.
  exact (nearest_results_match_query Example.env (Example.nearest None)
           Example.world _ _ _ _ eq_refl eq_refl).
Defined.

(** Resolving facility "b", which has no longitude, geocodes the address of
    the request and caches the result; the second call is served from the
    table. *)
Lemma facility_second_call_is_cached_witness :
  let w1 := snd (serve Example.env (Example.resolve "b" "1 Broadway, New York, NY")
                   Example.world) in
  serve Example.env (Example.resolve "b" "1 Broadway, New York, NY") w1 =
    (Normal (mkResponse 200 (CoordsBody 40.7128 (-74.0060) (Some true))), w1) /\
  geocoder_calls
    (snd (serve Example.env (Example.resolve "b" "1 Broadway, New York, NY") w1))
  = geocoder_calls w1.
Proof.
  exact (facility_second_call_is_cached Example.env
           (Example.resolve "b" "1 Broadway, New York, NY") Example.world
           40.7128 (-74.0060) false _ eq_refl).
Defined.

Lemma facility_geocoder_failure_no_write_witness :
  exists w',
    serve Example.env (Example.resolve "b" "Nowhere") Example.world =
      (Normal (mkResponse 500
                 (ErrorBody "ZERO_RESULTS: no location found for the given address")),
       w') /\
    facilities w' = facilities Example.world.
Proof.
  apply (facility_geocoder_failure_no_write Example.env
           (Example.resolve "b" "Nowhere") Example.world
           (Example.resolve_body "b" "Nowhere") "b" "Nowhere" Example.clinic_b);
    try reflexivity.
  - discriminate.
  - split; reflexivity.
  - right. reflexivity.
  - eapply NoResult; try reflexivity. eexists; reflexivity.
Defined.

(** C10 as stated fails: the address that is geocoded is the one in the
    request.  The stored address of facility "b" is never sent to the
    provider, and the record receives the coordinates of the request's
    address (Los Angeles), not those of its stored address (New York). *)
Lemma facility_geocodes_request_address :
  Facility.address Example.clinic_b = Some "1 Broadway, New York, NY" /\
  Example.provider "1 Broadway, New York, NY" = Example.found Example.new_york /\
  serve Example.env (Example.resolve "b" "Los Angeles, CA") Example.world =
    (Normal (mkResponse 200 (CoordsBody 34.0522 (-118.2437) (Some false))),
     mkWorld
       [ Example.clinic_a;
         set_coords Example.los_angeles (now Example.env) Example.clinic_b;
         Example.clinic_c ]
       ["Los Angeles, CA"]).
Proof. repeat split. Qed.

Lemma facility_cache_hit_needs_both_witness :
  exists w',
    serve Example.env (Example.resolve "b" "Los Angeles, CA") Example.world =
      (Normal (mkResponse 200 (CoordsBody 34.0522 (-118.2437) (Some false))), w') /\
    geocoder_calls w' = ["Los Angeles, CA"] /\
    record_of Example.env w' "b"
      (set_coords Example.los_angeles (now Example.env) Example.clinic_b).
Proof.
  refine (proj2 (proj2 (facility_cache_hit_needs_both Example.env
                   (Example.resolve "b" "Los Angeles, CA") Example.world
                   (Example.resolve_body "b" "Los Angeles, CA")
                   "b" "Los Angeles, CA" Example.clinic_b _ eq_refl eq_refl
                   eq_refl eq_refl (conj eq_refl eq_refl)))
            (or_intror eq_refl) Example.los_angeles _ eq_refl eq_refl).
  discriminate.
Defined.

(** From New York to Los Angeles, 2445.6 miles in a straight line; and from
    New York to an address the geocoder does not know: the driving figures
    are returned and [straight_miles] is null. *)
Lemma distance_straight_miles_witness :
  (exists straight_miles,
     Server.distance_route Example.server_env
       (Some "New York, NY") (Some "Los Angeles, CA") =
       Server.mkReply 200
         (Server.DistanceReply (Some "2,789 mi") (Some "41 hours") straight_miles
            (Some "OK")) /\
     straight_miles = Some 0x1.31b3333333333p+11%float)
  /\
  (exists straight_miles,
     Server.distance_route Example.server_env (Some "New York, NY") (Some "Nowhere") =
       Server.mkReply 200
         (Server.DistanceReply (Some "2,789 mi") (Some "41 hours") straight_miles
            (Some "OK")) /\
     straight_miles = None).
Proof.
  split.
  - exact (proj1 (distance_straight_miles Example.server_env
                    (Some "New York, NY") (Some "Los Angeles, CA") _ _ _ _ _
                    eq_refl eq_refl eq_refl eq_refl)
             (Some Example.new_york_place) (Some Example.los_angeles_place)
             eq_refl eq_refl).
  - exact (proj1 (distance_straight_miles Example.server_env
                    (Some "New York, NY") (Some "Nowhere") _ _ _ _ _
                    eq_refl eq_refl eq_refl eq_refl)
             (Some Example.new_york_place) None eq_refl eq_refl).
Defined.

(** * The rest of the edge function and of the distance route *)

(** A row after a request, compared with the row before: untouched, or a
    row that lacked a coordinate and received one. *)
Definition kept_or_resolved (env : Env) (f f' : Facility.t) : Prop :=
  f' = f \/
  ((Facility.lat f = None \/ Facility.lng f = None) /\
   exists coords, f' = set_coords coords (now env) f).

(** What a call of [geocodeAddress] does to the world: nothing to the table,
    and at most one entry, the address itself, added to the provider log. *)
Lemma geocodeAddress_effect env address w :
  exists c calls,
    geocodeAddress env address w =
      (c, mkWorld (facilities w) (geocoder_calls w ++ calls)) /\
    (calls = [] \/ calls = [address]) /\
    (truthy (GOOGLE_GEOCODING_API_KEY env) = None -> calls = []).
Proof.
  unfold geocodeAddress, fetch_geocode, bind, throw, lift.
  destruct (truthy (GOOGLE_GEOCODING_API_KEY env)) as [k | ].
  - destruct (geocoding_api env address) as [res | m]; simpl;
      repeat case_match;
      (eexists _, [address]; split; [ reflexivity | ];
       split; [ now right | discriminate ]).
  - eexists _, []. rewrite app_nil_r. destruct w. now repeat split; try left.
Qed.

Lemma Forall2_kept (env : Env) (l : list Facility.t) :
  Forall2 (kept_or_resolved env) l l.
Proof. induction l; constructor; [ now left | done ]. Qed.

Lemma Forall2_update_coords env id coords f0 (l : list Facility.t) :
  filter (fun g => Facility.facility_id g = id) l = [f0] ->
  Facility.lat f0 = None \/ Facility.lng f0 = None ->
  Forall2 (kept_or_resolved env) l
    (map (fun f => if decide (Facility.facility_id f = id)
                   then set_coords coords (now env) f else f) l).
Proof.
  intros F N.
  assert (H : forall f, f ∈ l -> Facility.facility_id f = id -> f = f0).
  { intros f Hin Hid.
    assert (Hf : f ∈ filter (fun g => Facility.facility_id g = id) l)
      by (apply list_elem_of_filter; done).
    rewrite F in Hf. now apply list_elem_of_singleton in Hf. }
  clear F. induction l as [ | f l IH ]; simpl; constructor.
  - destruct (decide (Facility.facility_id f = id)) as [E | E]; [ | now left ].
    right. rewrite (H f) by (done || left). eauto.
  - apply IH. intros g Hg. apply H. now right.
Qed.

(** The response a handler's completion becomes under the [catch] of
    [serve]. *)
Definition caught (c : Completion Response) : Response :=
  match c with
  | Normal r => r
  | Throw m => mkResponse 500 (ErrorBody m)
  end.

(** Case analysis on a request: whatever holds of the fixed answers and of
    each action's completion holds of the answer of [serve]. *)
Lemma serve_cases env req w (P : Response -> World -> Prop) :
  P (mkResponse 200 OkText) w ->
  (forall m, json_body req = Throw m -> P (mkResponse 500 (ErrorBody m)) w) ->
  (forall b, json_body req = Normal b ->
     Body.action b <> Some "facility" -> Body.action b <> Some "user" ->
     Body.action b <> Some "nearest" ->
     P (mkResponse 400
          (ErrorBody ("Unknown action: " ++ default "undefined" (Body.action b)))) w) ->
  (forall b c w', json_body req = Normal b -> Body.action b = Some "facility" ->
     facility_action env b w = (c, w') -> P (caught c) w') ->
  (forall b c w', json_body req = Normal b -> Body.action b = Some "user" ->
     user_action env b w = (c, w') -> P (caught c) w') ->
  (forall b c w', json_body req = Normal b -> Body.action b = Some "nearest" ->
     nearest_action env b w = (c, w') -> P (caught c) w') ->
  exists r w', serve env req w = (Normal r, w') /\ P r w'.
Proof.
  intros Hopt Hjson Hunknown Hfac Huser Hnear. unfold serve.
  destruct (decide (method req = "OPTIONS")); [ now eexists _, _ | ].
  unfold try_catch, bind, lift, respond, ret.
  destruct (json_body req) as [b | m] eqn:J; [ | now eexists _, _; eauto ].
  destruct (decide (Body.action b = Some "facility")) as [A | A].
  { destruct (facility_action env b w) as [c w'] eqn:F.
    specialize (Hfac b c w' eq_refl A F). destruct c; now eexists _, _. }
  destruct (decide (Body.action b = Some "user")) as [A1 | A1].
  { destruct (user_action env b w) as [c w'] eqn:F.
    specialize (Huser b c w' eq_refl A1 F). destruct c; now eexists _, _. }
  destruct (decide (Body.action b = Some "nearest")) as [A2 | A2].
  { destruct (nearest_action env b w) as [c w'] eqn:F.
    specialize (Hnear b c w' eq_refl A2 F). destruct c; now eexists _, _. }
  eexists _, _. split; [ reflexivity | ]. now apply Hunknown.
Qed.

(** The three actions, each as the outcomes it can have. *)

Lemma facility_action_cases env b w c w' :
  facility_action env b w = (c, w') ->
  (c = Normal (mkResponse 400 (ErrorBody "facility_id and address are required"))
   /\ w' = w
   /\ (truthy (Body.facility_id b) = None \/ truthy (Body.address b) = None))
  \/
  exists id addr,
    truthy (Body.facility_id b) = Some id /\
    truthy (Body.address b) = Some addr /\
    ((exists e, select_lat_lng env id w = (Normal (PgError e), w) /\
                c = Normal (mkResponse 404 (ErrorBody ("Facility lookup failed: " ++ e)))
                /\ w' = w)
     \/
     exists f, record_of env w id f /\
       ((exists la ln, Facility.lat f = Some la /\ Facility.lng f = Some ln /\
           c = Normal (mkResponse 200 (CoordsBody la ln (Some true))) /\ w' = w)
        \/
        ((Facility.lat f = None \/ Facility.lng f = None) /\
         exists cg wg, geocodeAddress env addr w = (cg, wg) /\
           match cg with
           | Throw m => c = Throw m /\ w' = wg
           | Normal coords =>
               match update_error env with
               | Some m =>
                   c = Normal (mkResponse 500
                                 (ErrorBody ("Failed to cache coordinates: " ++ m)))
                   /\ w' = wg
               | None =>
                   c = Normal (mkResponse 200
                                 (CoordsBody (Coords.lat coords) (Coords.lng coords)
                                    (Some false)))
                   /\ update_coords env id coords wg = (Normal None, w')
               end
           end))).
Proof.
  intros H. unfold facility_action in H.
  destruct (truthy (Body.facility_id b)) as [id | ] eqn:I.
  2: { left. unfold respond, ret in H.
       destruct (truthy (Body.address b)); simplify_eq; eauto. }
  destruct (truthy (Body.address b)) as [addr | ] eqn:A.
  2: { left. unfold respond, ret in H. simplify_eq; eauto. }
  right. exists id, addr. repeat (split; [ done | ]).
  unfold bind at 1 in H.
  destruct (select_lat_lng env id w) as [[[[la0 ln0] | e] | e] w0] eqn:S.
  - apply select_lat_lng_inv in S as (-> & f & R & <- & <-).
    right. exists f. split; [ exact R | ].
    destruct (Facility.lat f) as [la | ] eqn:La, (Facility.lng f) as [ln | ] eqn:Ln.
    { left. unfold respond, ret in H. simplify_eq. eauto 10. }
    all: right; (split; [ tauto | ]);
      unfold bind in H;
      destruct (geocodeAddress env addr w) as [[coords | m] wg] eqn:G;
      eexists _, _; (split; [ reflexivity | ]); simpl;
      [ | now simplify_eq ];
      unfold update_coords in *;
      destruct (update_error env); unfold respond, ret in H; now simplify_eq.
  - left. exists e. unfold respond, ret in H.
    assert (w0 = w) as ->.
    { unfold select_lat_lng in S. repeat case_match; now simplify_eq. }
    now simplify_eq.
  - exfalso. unfold select_lat_lng in S. repeat case_match; discriminate S.
Qed.

Lemma user_action_cases env b w c w' :
  user_action env b w = (c, w') ->
  (c = Normal (mkResponse 400 (ErrorBody "query is required")) /\ w' = w
   /\ truthy (Body.query b) = None)
  \/
  exists q cg,
    truthy (Body.query b) = Some q /\
    geocodeAddress env q w = (cg, w') /\
    match cg with
    | Throw m => c = Throw m
    | Normal coords =>
        c = Normal (mkResponse 200
                      (CoordsBody (Coords.lat coords) (Coords.lng coords) None))
    end.
Proof.
  intros H. unfold user_action in H.
  destruct (truthy (Body.query b)) as [q | ] eqn:Q.
  - right. unfold bind, respond, ret in H.
    destruct (geocodeAddress env q w) as [[coords | m] wg] eqn:G.
    + exists q, (Normal coords). now simplify_eq.
    + exists q, (Throw m). now simplify_eq.
  - left. unfold respond, ret in H. now simplify_eq.
Qed.

Lemma nearest_action_cases env b w c w' :
  nearest_action env b w = (c, w') ->
  (c = Normal (mkResponse 400 (ErrorBody "query and state are required")) /\ w' = w
   /\ (truthy (Body.query b) = None \/ truthy (Body.state b) = None))
  \/
  exists q st cg,
    truthy (Body.query b) = Some q /\
    truthy (Body.state b) = Some st /\
    geocodeAddress env q w = (cg, w') /\
    match cg with
    | Throw m => c = Throw m
    | Normal userCoords =>
        match select_error env with
        | Some m =>
            c = Normal (mkResponse 500 (ErrorBody ("Database query failed: " ++ m)))
        | None =>
            c = Normal (mkResponse 200
                          (NearestBody userCoords
                             (slice0 (limit_or_30 (Body.limit b))
                                (sort by_distance
                                   (map (with_distance userCoords)
                                      (rows_matching (nearest_query b st)
                                         (facilities w')))))))
        end
    end.
Proof.
  intros H. unfold nearest_action in H.
  destruct (truthy (Body.query b)) as [q | ] eqn:Q.
  2: { left. unfold respond, ret in H.
       destruct (truthy (Body.state b)); simplify_eq; eauto. }
  destruct (truthy (Body.state b)) as [st | ] eqn:S.
  2: { left. unfold respond, ret in H. simplify_eq; eauto. }
  right. unfold bind, respond, ret, run_query in H.
  destruct (geocodeAddress env q w) as [[uc | m] wg] eqn:G.
  - exists q, st, (Normal uc).
    destruct (select_error env) eqn:E; simplify_eq; now rewrite ?E.
  - exists q, st, (Throw m). now simplify_eq.
Qed.

(** X5. Every request is answered: no exception escapes [serve], the status
    is 200, 400, 404 or 500, and a request answered 400 or 404 has changed
    nothing (no row written, no address sent to the provider). *)
Theorem serve_always_answers :
  forall env req w,
    exists r w',
      serve env req w = (Normal r, w') /\
      status r ∈ [200; 400; 404; 500]%Z /\
      (status r = 400%Z \/ status r = 404%Z -> w' = w).
Proof.
  intros env req w.
  apply (serve_cases env req w
           (fun r w' => status r ∈ [200; 400; 404; 500]%Z /\
                        (status r = 400%Z \/ status r = 404%Z -> w' = w))).
  - split; [ set_solver | done ].
  - intros m _. split; [ set_solver | done ].
  - intros b _ _ _ _. split; [ set_solver | done ].
  - intros b c w' _ _ F.
    apply facility_action_cases in F
      as [(-> & -> & _) | (id & addr & _ & _ & [(e & _ & -> & ->) | (f & _ & F)])].
    + split; [ set_solver | done ].
    + split; [ set_solver | done ].
    + destruct F as [(la & ln & _ & _ & -> & ->) | (_ & cg & wg & _ & F)].
      * split; [ set_solver | done ].
      * destruct cg as [coords | m]; [ destruct (update_error env) | ];
          destruct F as [-> F]; simpl;
          (split; [ set_solver | intros [? | ?]; discriminate ]).
  - intros b c w' _ _ F.
    apply user_action_cases in F as [(-> & -> & _) | (q & cg & _ & _ & F)].
    + split; [ set_solver | done ].
    + destruct cg; subst c; simpl;
        (split; [ set_solver | intros [? | ?]; discriminate ]).
  - intros b c w' _ _ F.
    apply nearest_action_cases in F as [(-> & -> & _) | (q & st & cg & _ & _ & _ & F)].
    + split; [ set_solver | done ].
    + destruct cg; [ destruct (select_error env) | ]; subst c; simpl;
        (split; [ set_solver | intros [? | ?]; discriminate ]).
Qed.

(** X6. A request sends at most one address to the geocoding provider, and
    none at all when the API key is not set. *)
Theorem serve_provider_calls :
  forall env req w,
    exists calls,
      geocoder_calls (snd (serve env req w)) = geocoder_calls w ++ calls /\
      (length calls <= 1)%nat /\
      (truthy (GOOGLE_GEOCODING_API_KEY env) = None -> calls = []).
Proof.
  intros env req w.
  set (P := fun w' : World =>
              exists calls, geocoder_calls w' = geocoder_calls w ++ calls /\
                            (length calls <= 1)%nat /\
                            (truthy (GOOGLE_GEOCODING_API_KEY env) = None -> calls = [])).
  assert (P0 : P w) by (exists []; rewrite app_nil_r; simpl; auto).
  assert (PG : forall a c wg, geocodeAddress env a w = (c, wg) -> P wg).
  { intros a c wg G.
    destruct (geocodeAddress_effect env a w) as (c0 & calls & G' & [-> | ->] & K);
      rewrite G in G'; injection G' as _ ->; eexists; simpl; eauto. }
  destruct (serve_cases env req w (fun _ w' => P w')) as (r & w' & -> & H);
    try done.
  - intros b c w' _ _ F.
    apply facility_action_cases in F
      as [(_ & -> & _) | (id & addr & _ & _ & [(e & _ & _ & ->) | (f & _ & F)])];
      try done.
    destruct F as [(la & ln & _ & _ & _ & ->) | (_ & cg & wg & G & F)]; [ done | ].
    apply PG in G. destruct cg as [coords | m]; [ | now destruct F as [_ ->] ].
    destruct (update_error env) eqn:U; [ now destruct F as [_ ->] | ].
    destruct F as [_ F]. unfold update_coords in F. rewrite U in F.
    now simplify_eq.
  - intros b c w' _ _ F.
    apply user_action_cases in F as [(_ & -> & _) | (q & cg & _ & G & _)];
      [ done | now apply PG in G ].
  - intros b c w' _ _ F.
    apply nearest_action_cases in F as [(_ & -> & _) | (q & st & cg & _ & _ & G & _)];
      [ done | now apply PG in G ].
Qed.

(** X7. No request adds, removes or reorders a row.  A row changes only by
    receiving coordinates, and only if it lacked one: a record that has
    both [lat] and [lng] is never rewritten.  Requests other than the
    "facility" action leave the whole table as it was. *)
Theorem serve_rows_kept_or_resolved :
  forall env req w,
    Forall2 (kept_or_resolved env) (facilities w) (facilities (snd (serve env req w)))
    /\
    ((forall b, json_body req = Normal b -> Body.action b <> Some "facility") ->
     facilities (snd (serve env req w)) = facilities w).
Proof.
  intros env req w.
  set (P := fun w' : World =>
              Forall2 (kept_or_resolved env) (facilities w) (facilities w') /\
              ((forall b, json_body req = Normal b -> Body.action b <> Some "facility") ->
               facilities w' = facilities w)).
  assert (P0 : P w) by (split; [ apply Forall2_kept | done ]).
  assert (PG : forall a c wg, geocodeAddress env a w = (c, wg) -> P wg).
  { intros a c wg G. pose proof (geocodeAddress_facilities env a w) as E.
    rewrite G in E. simpl in E. unfold P. rewrite E.
    split; [ apply Forall2_kept | done ]. }
  destruct (serve_cases env req w (fun _ w' => P w')) as (r & w' & -> & H);
    try done.
  - intros b c w' J A F.
    apply facility_action_cases in F
      as [(_ & -> & _) | (id & addr & _ & _ & [(e & _ & _ & ->) | (f & R & F)])];
      try done.
    destruct F as [(la & ln & _ & _ & _ & ->) | (N & cg & wg & G & F)]; [ done | ].
    pose proof (geocodeAddress_facilities env addr w) as E.
    rewrite G in E. simpl in E.
    apply PG in G. destruct cg as [coords | m]; [ | now destruct F as [_ ->] ].
    destruct (update_error env) eqn:U; [ now destruct F as [_ ->] | ].
    destruct F as [_ F]. unfold update_coords in F. rewrite U in F.
    simplify_eq. split; simpl.
    + rewrite E. destruct R as [_ R]. now apply Forall2_update_coords with f.
    + intros Hb. now destruct (Hb b J).
  - intros b c w' _ _ F.
    apply user_action_cases in F as [(_ & -> & _) | (q & cg & _ & G & _)];
      [ done | now apply PG in G ].
  - intros b c w' _ _ F.
    apply nearest_action_cases in F as [(_ & -> & _) | (q & st & cg & _ & _ & G & _)];
      [ done | now apply PG in G ].
Qed.

(** X8. A "facility" request for an id that no row, or more than one row,
    carries is answered 404 with the lookup error; nothing is geocoded and
    nothing is written. *)
Theorem facility_unknown_id_is_404 :
  forall env req w b id addr,
    method req <> "OPTIONS" ->
    json_body req = Normal b ->
    Body.action b = Some "facility" ->
    truthy (Body.facility_id b) = Some id ->
    truthy (Body.address b) = Some addr ->
    select_error env = None ->
    length (filter (fun g => Facility.facility_id g = id) (facilities w)) <> 1%nat ->
    serve env req w =
      (Normal (mkResponse 404
                 (ErrorBody ("Facility lookup failed: " ++ single_row_error))), w).
Proof.
  intros env req w b id addr M J A I Ad E L.
  rewrite (serve_facility _ _ _ _ M J A).
  unfold try_catch, facility_action. rewrite I, Ad.
  unfold bind, select_lat_lng. rewrite E.
  destruct (filter _ (facilities w)) as [ | f [ | g l ] ]; try reflexivity.
  now destruct L.
Qed.

(** X9. When the geocoder succeeds but the datastore refuses the update,
    the "facility" action answers 500 with the cache error; the table is
    unchanged although the provider has been called, so the coordinates
    are lost and a later call geocodes again. *)
Theorem facility_update_failure :
  forall env req w b id addr f coords wg m,
    method req <> "OPTIONS" ->
    json_body req = Normal b ->
    Body.action b = Some "facility" ->
    truthy (Body.facility_id b) = Some id ->
    truthy (Body.address b) = Some addr ->
    record_of env w id f ->
    Facility.lat f = None \/ Facility.lng f = None ->
    geocodeAddress env addr w = (Normal coords, wg) ->
    update_error env = Some m ->
    serve env req w =
      (Normal (mkResponse 500 (ErrorBody ("Failed to cache coordinates: " ++ m))), wg)
    /\ facilities wg = facilities w
    /\ geocoder_calls wg = geocoder_calls w ++ [addr].
Proof.
  intros env req w b id addr f coords wg m M J A I Ad R N G U.
  split; [ | now apply geocodeAddress_normal in G ].
  rewrite (serve_facility _ _ _ _ M J A). unfold try_catch.
  rewrite (facility_cache_miss _ _ _ _ _ _ I Ad R N).
  unfold bind. rewrite G. unfold update_coords. now rewrite U.
Qed.

(** X10. When the geocoder fails in the "user" or the "nearest" action, the
    answer is 500 with the failure's message and the table is unchanged. *)
Theorem query_geocoder_failure :
  forall env req w b q m,
    method req <> "OPTIONS" ->
    json_body req = Normal b ->
    (Body.action b = Some "user" \/
     (Body.action b = Some "nearest" /\ is_Some (truthy (Body.state b)))) ->
    truthy (Body.query b) = Some q ->
    GeocoderFailure env q m ->
    exists w',
      serve env req w = (Normal (mkResponse 500 (ErrorBody m)), w') /\
      facilities w' = facilities w.
Proof.
  intros env req w b q m M J A Q F.
  destruct (geocoder_failure_throws env q m w F) as (w' & G & Fw).
  exists w'. split; [ | exact Fw ].
  unfold serve. rewrite decide_False by done.
  unfold try_catch, bind at 1, lift. rewrite J.
  destruct A as [A | [A [st S]]]; rewrite A.
  - rewrite decide_False by discriminate. rewrite decide_True by done.
    unfold user_action. rewrite Q. unfold bind. now rewrite G.
  - rewrite !decide_False by discriminate. rewrite decide_True by done.
    unfold nearest_action. rewrite Q, S. unfold bind. now rewrite G.
Qed.

Lemma slice0_all {A} (e : Z) (l : list A) :
  (Z.of_nat (length l) <= e)%Z -> slice0 e l = l.
Proof.
  intros H. unfold slice0.
  destruct (e <? 0)%Z eqn:E; [ lia | ].
  apply firstn_all2. lia.
Qed.

(** X11. When the limit of a "nearest" request (30 if absent or 0) is at
    least the number of matching facilities, the answer holds every one of
    them exactly once: it is a permutation of the matching rows with their
    distances. *)
Theorem nearest_keeps_every_match :
  forall env req w resp w' uc results,
    serve env req w = (Normal resp, w') ->
    body resp = NearestBody uc results ->
    exists b st,
      json_body req = Normal b /\
      truthy (Body.state b) = Some st /\
      ((Z.of_nat (length (rows_matching (nearest_query b st) (facilities w)))
        <= limit_or_30 (Body.limit b))%Z ->
       results ≡ₚ map (with_distance uc)
                    (rows_matching (nearest_query b st) (facilities w))).
Proof.
  intros env req w resp w' uc results H Hb.
  destruct (serve_nearest_inv _ _ _ _ _ _ _ H Hb)
    as (b & q & st & J & _ & _ & S & _ & _ & _ & ->).
  exists b, st. split; [ exact J | ]. split; [ exact S | ].
  intros L. rewrite slice0_all.
  - apply sort_Permutation.
  - now rewrite length_sort, length_map.
Qed.

(** X13. Whenever [geocodeAddress] returns coordinates, the API key is
    set, the provider answered with an OK transport status and the status
    "OK", and the coordinates are the location of the provider's first
    result (later results are ignored); exactly one provider call was
    made. *)
Theorem geocodeAddress_returns_first_location :
  forall env address w coords w',
    geocodeAddress env address w = (Normal coords, w') ->
    exists res data first rest g,
      is_Some (truthy (GOOGLE_GEOCODING_API_KEY env)) /\
      geocoding_api env address = Normal res /\
      Geo.ok res = true /\
      Geo.json_body res = Normal data /\
      Geo.status data = Some "OK" /\
      Geo.results data = Some (first :: rest) /\
      Geo.geometry first = Some g /\
      Geo.location g = Some coords /\
      w' = mkWorld (facilities w) (geocoder_calls w ++ [address]).
Proof.
  intros env address w coords w' H.
  unfold geocodeAddress, fetch_geocode in H.
  destruct (truthy (GOOGLE_GEOCODING_API_KEY env)) as [k | ] eqn:K;
    [ | discriminate H ].
  unfold bind at 1 in H.
  destruct (geocoding_api env address) as [res | m] eqn:A; [ | discriminate H ].
  destruct (Geo.ok res) eqn:O; [ | discriminate H ]. simpl in H.
  unfold bind, lift in H.
  destruct (Geo.json_body res) as [data | m] eqn:J; [ | discriminate H ].
  destruct (decide (Geo.status data = Some "REQUEST_DENIED")); [ discriminate H | ].
  destruct (decide (Geo.status data = Some "ZERO_RESULTS")); [ discriminate H | ].
  destruct (decide (Geo.status data = Some "OK")) as [S | ]; [ | discriminate H ].
  unfold first_location in H.
  destruct (Geo.results data) as [[ | first rest] | ] eqn:Rs; try discriminate H.
  destruct (Geo.geometry first) as [g | ] eqn:Gm; [ | discriminate H ].
  destruct (Geo.location g) as [[la ln] | ] eqn:L; [ | discriminate H ].
  simpl in H. injection H as <- <-.
  exists res, data, first, rest, g. repeat split; eauto.
Qed.

Lemma geocodeAddress_returns_first_location_witness :
  exists res data first rest g,
    is_Some (truthy (GOOGLE_GEOCODING_API_KEY Example.env)) /\
    geocoding_api Example.env "Los Angeles, CA" = Normal res /\
    Geo.ok res = true /\
    Geo.json_body res = Normal data /\
    Geo.status data = Some "OK" /\
    Geo.results data = Some (first :: rest) /\
    Geo.geometry first = Some g /\
    Geo.location g = Some Example.los_angeles /\
    mkWorld (facilities Example.world) ["Los Angeles, CA"] =
      mkWorld (facilities Example.world)
        (geocoder_calls Example.world ++ ["Los Angeles, CA"]).
Proof.
  exact (geocodeAddress_returns_first_location Example.env "Los Angeles, CA"
           Example.world Example.los_angeles _ eq_refl).
Defined.

(** ** More on the distance route *)

Lemma distance_route_200_inv env o d dd du s st :
  Server.distance_route env o d = Server.mkReply 200 (Server.DistanceReply dd du s st) ->
  exists origin destination matrixData oc dc,
    truthy o = Some origin /\ truthy d = Some destination /\
    Server.distance_matrix_api env origin destination = Normal matrixData /\
    Server.driving (Server.first_element matrixData) = Normal (dd, du) /\
    st = Server.status_of (Server.first_element matrixData) /\
    Server.geocode env origin = Normal oc /\
    Server.geocode env destination = Normal dc /\
    s = Server.straight_miles_json (Server.straight_line env oc dc).
Proof.
  intros H. unfold Server.distance_route in H.
  destruct (truthy o) as [origin | ] eqn:O; [ | discriminate H ].
  destruct (truthy d) as [destination | ] eqn:D; [ | discriminate H ].
  unfold Server.distance_lookup, Server.geocode_both in H.
  destruct (Server.distance_matrix_api env origin destination) as [md | m] eqn:M;
    [ | discriminate H ].
  destruct (Server.driving (Server.first_element md)) as [[dd0 du0] | m] eqn:Dr;
    [ | discriminate H ].
  destruct (Server.geocode env origin) as [oc | m] eqn:Go,
           (Server.geocode env destination) as [dc | m'] eqn:Gd;
    try discriminate H.
  2: { destruct (Server.first_rejection env); discriminate H. }
  injection H as <- <- <- <-.
  exists origin, destination, md, oc, dc. repeat split; done.
Qed.

(** X14. In a successful answer of the distance route the driving distance
    and duration are present only when the road-distance service reported
    the status 'OK' for the pair; with any other status, or none, both are
    null. *)
Theorem driving_fields_need_ok :
  forall env o d dd du s st,
    Server.distance_route env o d = Server.mkReply 200 (Server.DistanceReply dd du s st) ->
    st <> Some "OK" ->
    dd = None /\ du = None.
Proof.
  intros env o d dd du s st H Hst.
  apply distance_route_200_inv in H
    as (origin & destination & md & oc & dc & _ & _ & _ & Dr & -> & _).
  unfold Server.driving, Server.status_of in *.
  destruct (Server.first_element md) as [e | ]; [ | now simplify_eq ].
  destruct (decide (Server.el_status e = Some "OK")); [ done | now simplify_eq ].
Qed.

(** X15. When [straight_miles] is present in an answer of the distance
    route, both lookups found a coordinate and the rounded great-circle
    distance between them is a finite double: [straight_miles] is that
    double (0 when it is a zero).  A distance that is NaN or infinite is
    never answered. *)
Theorem straight_miles_is_a_distance :
  forall env o d dd du s st,
    Server.distance_route env o d =
      Server.mkReply 200 (Server.DistanceReply dd du (Some s) st) ->
    is_finite s = true /\
    exists origin destination a b,
      truthy o = Some origin /\ truthy d = Some destination /\
      Server.geocode env origin = Normal (Some a) /\
      Server.geocode env destination = Normal (Some b) /\
      let r :=
        IEEE.round1
          (Server.haversine env (Server.lat a) (Server.lng a)
             (Server.lat b) (Server.lng b)) in
      is_finite r = true /\
      (s = r \/ (is_zero r = true /\ s = 0%float)).
Proof.
  intros env o d dd du s st H.
  apply distance_route_200_inv in H
    as (origin & destination & md & oc & dc & O & D & _ & _ & _ & Go & Gd & S).
  destruct oc as [a | ], dc as [b | ]; try discriminate S.
  cbn [Server.straight_line Server.straight_miles_json] in S.
  unfold IEEE.JSON_number in S.
  set (r := IEEE.round1 _) in *.
  assert (F : is_finite r = true /\ (s = r \/ (is_zero r = true /\ s = 0%float))).
  { unfold is_finite.
    destruct (is_nan r || is_infinity r); [ discriminate S | ].
    destruct (is_zero r); injection S as <-; split; auto. }
  destruct F as [F E]. split.
  - destruct E as [-> | [_ ->]]; [ exact F | reflexivity ].
  - exists origin, destination, a, b. repeat split; try done.
Qed.

(** X16. The partial-result policy of the distance route stops at
    exceptions: when the road-distance call was answered but a geocode
    lookup throws, the answer is 500 and the driving figures are not
    returned.  The message is that of the lookup that threw; when both
    throw, it is that of the one that rejected first. *)
Theorem distance_route_geocode_throw :
  forall env o d origin destination matrixData figures m,
    truthy o = Some origin ->
    truthy d = Some destination ->
    Server.distance_matrix_api env origin destination = Normal matrixData ->
    Server.driving (Server.first_element matrixData) = Normal figures ->
    (Server.geocode env origin = Throw m /\
     ((exists dc, Server.geocode env destination = Normal dc) \/
      Server.first_rejection env = Server.OfOrigin))
    \/
    (Server.geocode env destination = Throw m /\
     ((exists oc, Server.geocode env origin = Normal oc) \/
      Server.first_rejection env = Server.OfDestination)) ->
    Server.distance_route env o d = Server.mkReply 500 (Server.ErrorReply m).
Proof.
  intros env o d origin destination md [dd du] m O D M Dr G.
  rewrite (distance_route_after_driving _ _ _ _ _ _ _ _ O D M Dr).
  unfold Server.geocode_both.
  destruct G as [[G [[dc G'] | F]] | [G [[oc G'] | F]]].
  - now rewrite G, G'.
  - rewrite G, F. now destruct (Server.geocode env destination).
  - now rewrite G, G'.
  - rewrite G, F. now destruct (Server.geocode env origin).
Qed.

(** ** The Express server: identity, profile, upload and entries routes *)

Module App.

(** *** Strings that are trimmed

    A name is a JavaScript string, kept as its sequence of UTF-16 code
    units so that [String.prototype.trim] can be written out. *)

(** The code units [trim] removes: WhiteSpace and LineTerminator of
    ECMAScript (all are single code units). *)
Definition is_white_space (c : N) : bool :=
  ((c =? 0x9) || (c =? 0xA) || (c =? 0xB) || (c =? 0xC) || (c =? 0xD)
   || (c =? 0x20) || (c =? 0xA0) || (c =? 0x1680)
   || ((0x2000 <=? c) && (c <=? 0x200A))
   || (c =? 0x2028) || (c =? 0x2029) || (c =? 0x202F) || (c =? 0x205F)
   || (c =? 0x3000) || (c =? 0xFEFF))%N.

Fixpoint trimStart (s : list N) : list N :=
  match s with
  | c :: s' => if is_white_space c then trimStart s' else s
  | [] => []
  end.

Definition trimEnd (s : list N) : list N := reverse (trimStart (reverse s)).

Definition trim (s : list N) : list N := trimEnd (trimStart s).

(** A value found under a key of [req.body]. *)
Inductive value : Type :=
| VNull
| VBool (b : bool)
| VNum (n : number)
| VStr (s : list N)
| VObject.

(** [!v] ([None] is [undefined]). *)
Definition falsy (v : option value) : bool :=
  match v with
  | None | Some VNull | Some (VBool false) | Some (VStr []) => true
  | Some (VNum n) => if Req_dec_T n 0 then true else false
  | Some _ => false
  end.

(** [typeof v === 'string'] *)
Definition is_string (v : option value) : bool :=
  match v with
  | Some (VStr _) => true
  | _ => false
  end.

(** [v.trim()] where [v] is a string. *)
Definition trimmed (v : option value) : list N :=
  match v with
  | Some (VStr s) => trim s
  | _ => []
  end.

(** *** Tables, files and the services around the routes *)

Module User.
(** A row of [users], with the columns the queries name (the table's
    declaration is not in the sources). *)
Record t : Type := mk {
  id : string;
  name : option (list N);
  created_at : option string;
  updated_at : option string
}.
End User.

Module Entry.
(** A row of [entries]: the columns the insert writes and the answer
    reads. *)
Record t : Type := mk {
  id : string;
  text : option string;
  user_id : option string;
  created_at : Z
}.
End Entry.

(** The answer of the vision model, every dereferenced level optional. *)
Module Vision.
Record Message : Type := mkMessage { content : option string }.
Record Choice : Type := mkChoice { message : option Message }.
Record Response : Type := mkResponse { choices : option (list Choice) }.
End Vision.

(** [req.file] as multer leaves it. *)
Record File : Type := mkFile {
  path : string;
  mimetype : string
}.

Record Env : Type := mkEnv {
  NODE_ENV : option string;
  (** what [uuidv4()] returns when it is called *)
  uuidv4 : string;
  (** [new Date().toISOString()] *)
  now : string;
  (** faults of the datastore, by query; a thrown exception and a returned
      [error] are treated alike by every route *)
  users_insert_error : option string;
  users_select_error : option string;
  users_update_error : option string;
  entries_insert_error : option string;
  entries_select_error : option string;
  (** what the datastore assigns to a new row *)
  user_created_at : option string;
  entry_id : string;
  entry_created_at : Z;
  (** the vision model's answer for an image of a MIME type and content *)
  vision : string -> string -> Completion Vision.Response
}.

Record World : Type := mkWorld {
  users : list User.t;
  entries : list Entry.t;
  (** the files on disk, by path *)
  files : gmap string string
}.

Record CookieOptions : Type := mkCookieOptions {
  httpOnly : bool;
  sameSite : string;
  secure : bool;
  maxAge : Z
}.

Record Cookie : Type := mkCookie {
  cookie_name : string;
  cookie_value : string;
  options : CookieOptions
}.

Inductive Payload : Type :=
| ErrorPayload (error : string)
| Profile (id : string) (name : option (list N)) (created_at : option string)
| Transcription (text : option string) (id : string) (created_at : Z)
| EntryList (data : list Entry.t).

(** What a route sends: [res.status(code).json(payload)]. *)
Record Reply : Type := mkReply {
  code : Z;
  payload : Payload
}.

(** *** The identity middleware *)

(** [supabase.from('users').insert({ id: uid })], its outcome ignored. *)
Definition insert_user (env : Env) (uid : string) (w : World) : World :=
  match users_insert_error env with
  | Some _ => w
  | None =>
      mkWorld (users w ++ [User.mk uid None (user_created_at env) None])
        (entries w) (files w)
  end.

(** The middleware: the cookie it sets, if any, [req.userId], and the
    world after it. *)
Definition identity (env : Env) (cookie_uid : option string) (w : World)
  : option Cookie * string * World :=
  match truthy cookie_uid with
  | Some uid => (None, uid, w)
  | None =>
      let uid := uuidv4 env in
      (Some (mkCookie "uid" uid
               (mkCookieOptions true "lax"
                  (bool_decide (NODE_ENV env = Some "production"))
                  (365 * 24 * 60 * 60 * 1000))),
       uid,
       insert_user env uid w)
  end.

(** *** GET /api/me and POST /api/me *)

(** [.select('id, name, created_at').eq('id', userId).single()] *)
Definition select_user (env : Env) (userId : string) (w : World)
  : PgResult User.t :=
  match users_select_error env with
  | Some m => PgError m
  | None =>
      match filter (fun u => User.id u = userId) (users w) with
      | [u] => PgData u
      | _ => PgError single_row_error
      end
  end.

Definition get_me (env : Env) (userId : string) (w : World) : Reply :=
  match select_user env userId w with
  | PgData data => mkReply 200 (Profile (User.id data) (User.name data) (User.created_at data))
  | PgError _ => mkReply 200 (Profile userId None None)
  end.

(** [.update({ name, updated_at }).eq('id', userId).select(...).single()]:
    the row it returns and the table after it.  A request for a single row
    that would change none or several is refused by the datastore and
    changes nothing. *)
Definition update_user (env : Env) (userId : string) (name : list N) (w : World)
  : PgResult User.t * World :=
  match users_update_error env with
  | Some m => (PgError m, w)
  | None =>
      let rows :=
        map (fun u => if decide (User.id u = userId)
                      then User.mk (User.id u) (Some name) (User.created_at u)
                             (Some (now env))
                      else u)
            (users w) in
      match filter (fun u => User.id u = userId) rows with
      | [u] => (PgData u, mkWorld rows (entries w) (files w))
      | _ => (PgError single_row_error, w)
      end
  end.

Definition post_me (env : Env) (userId : string) (name : option value) (w : World)
  : Reply * World :=
  if falsy name || negb (is_string name) || bool_decide (trimmed name = []) then
    (mkReply 400 (ErrorPayload "Name is required."), w)
  else
    match update_user env userId (trimmed name) w with
    | (PgData data, w') =>
        (mkReply 200 (Profile (User.id data) (User.name data) (User.created_at data)), w')
    | (PgError _, w') =>
        (mkReply 200 (Profile userId (Some (trimmed name)) None), w')
    end.

(** *** POST /api/analyze *)

(** The error of [fs] for a path that does not exist. *)
Definition enoent (syscall path : string) : string :=
  "ENOENT: no such file or directory, " ++ syscall ++ " '" ++ path ++ "'".

(** [response.choices[0].message.content] *)
Definition first_content (response : Vision.Response) : Completion (option string) :=
  match Vision.choices response with
  | None => Throw (type_error "0")
  | Some [] => Throw (type_error "message")
  | Some (choice :: _) =>
      match Vision.message choice with
      | None => Throw (type_error "content")
      | Some message => Normal (Vision.content message)
      end
  end.

(** [.from('entries').insert({ text, user_id }).select().single()] *)
Definition insert_entry (env : Env) (text : option string) (userId : string)
    (w : World) : PgResult Entry.t * World :=
  match entries_insert_error env with
  | Some m => (PgError m, w)
  | None =>
      let row := Entry.mk (entry_id env) text (Some userId) (entry_created_at env) in
      (PgData row, mkWorld (users w) (entries w ++ [row]) (files w))
  end.

(** The [try] block. *)
Definition transcribe (env : Env) (userId : string) (file : File) (w : World)
  : Completion Reply * World :=
  match files w !! path file with
  | None => (Throw (enoent "open" (path file)), w)
  | Some image =>
      match vision env (mimetype file) image with
      | Throw m => (Throw m, w)
      | Normal response =>
          match first_content response with
          | Throw m => (Throw m, w)
          | Normal text =>
              match insert_entry env text userId w with
              | (PgError dbError, w') => (Throw dbError, w')
              | (PgData data, w') =>
                  (Normal (mkReply 200
                             (Transcription text (Entry.id data) (Entry.created_at data))),
                   w')
              end
          end
      end
  end.

(** [err.message || 'OpenAI request failed.'] *)
Definition message_or_default (message : string) : string :=
  match message with
  | EmptyString => "OpenAI request failed."
  | _ => message
  end.

(** [fs.unlinkSync(filePath)] in the [finally] block: the world after it,
    and the exception it throws when the file is not there. *)
Definition unlinkSync (filePath : string) (w : World) : option string * World :=
  match files w !! filePath with
  | Some _ => (None, mkWorld (users w) (entries w) (delete filePath (files w)))
  | None => (Some (enoent "unlink" filePath), w)
  end.

(** The route: the reply it sends, the exception that escapes it after the
    reply (from [finally]), and the world after it. *)
Definition analyze (env : Env) (userId : string) (file : option File) (w : World)
  : Reply * option string * World :=
  match file with
  | None => (mkReply 400 (ErrorPayload "No image uploaded."), None, w)
  | Some f =>
      let '(outcome, w1) := transcribe env userId f w in
      let reply :=
        match outcome with
        | Normal r => r
        | Throw m => mkReply 500 (ErrorPayload (message_or_default m))
        end in
      let '(escaped, w2) := unlinkSync (path f) w1 in
      (reply, escaped, w2)
  end.

(** *** GET /api/entries *)

(** [a] is listed before [b]: it is not older. *)
Definition newer_first (a b : Entry.t) : Prop :=
  (Entry.created_at b <= Entry.created_at a)%Z.

#[global] Instance newer_first_dec : RelDecision newer_first :=
  fun a b => decide (Entry.created_at b <= Entry.created_at a)%Z.

(** [.select('*').eq('user_id', userId).order('created_at', { ascending:
    false })].  The datastore leaves the order of rows with the same
    [created_at] open; here they come out as the merge sort leaves them. *)
Definition select_entries (userId : string) (w : World) : list Entry.t :=
  merge_sort newer_first
    (filter (fun e => Entry.user_id e = Some userId) (entries w)).

Definition get_entries (env : Env) (userId : string) (w : World) : Reply :=
  match entries_select_error env with
  | Some m => mkReply 500 (ErrorPayload m)
  | None => mkReply 200 (EntryList (select_entries userId w))
  end.

(** *** A request through the middleware and its route *)

Inductive Route : Type :=
| GetMe
| PostMe (name : option value)
| Analyze (file : option File)
| GetEntries.

Record Request : Type := mkRequest {
  cookie_uid : option string;
  route : Route
}.

Record Answer : Type := mkAnswer {
  set_cookie : option Cookie;
  reply : Reply;
  unhandled : option string
}.

Definition handle (env : Env) (req : Request) (w : World) : Answer * World :=
  let '(cookie, userId, w1) := identity env (cookie_uid req) w in
  match route req with
  | GetMe => (mkAnswer cookie (get_me env userId w1) None, w1)
  | PostMe name =>
      let '(r, w2) := post_me env userId name w1 in
      (mkAnswer cookie r None, w2)
  | Analyze file =>
      let '(r, escaped, w2) := analyze env userId file w1 in
      (mkAnswer cookie r escaped, w2)
  | GetEntries => (mkAnswer cookie (get_entries env userId w1) None, w1)
  end.

End App.

(** ** Properties of the identity, profile, upload and entries routes *)

(** A string with no white space at either end. *)
Definition tidy (s : list N) : Prop :=
  (forall c, head s = Some c -> App.is_white_space c = false) /\
  (forall c, last s = Some c -> App.is_white_space c = false).

Section TrimFacts.

Import App.

Lemma trimStart_head (s : list N) (c : N) :
  head (trimStart s) = Some c -> is_white_space c = false.
Proof.
  induction s as [ | c0 s IH ]; simpl; [ discriminate | ].
  destruct (is_white_space c0) eqn:E; [ exact IH | ].
  simpl. now intros [= <-].
Qed.

Lemma trimStart_last (s : list N) (c : N) :
  last (trimStart s) = Some c -> last s = Some c.
Proof.
  induction s as [ | c0 s IH ]; simpl; [ done | ].
  destruct (is_white_space c0) eqn:E; [ | done ].
  intros H. specialize (IH H).
  destruct s; [ discriminate IH | exact IH ].
Qed.

Lemma trimStart_nil (s : list N) :
  trimStart s = [] <-> Forall (fun c => is_white_space c = true) s.
Proof.
  induction s as [ | c s IH ]; simpl; [ done | ].
  destruct (is_white_space c) eqn:E.
  - rewrite IH. split; [ now constructor | now inversion 1 ].
  - split; [ discriminate | ]. inversion 1; congruence.
Qed.

Lemma trimEnd_head (s : list N) (c : N) :
  head (trimEnd s) = Some c -> head s = Some c.
Proof.
  unfold trimEnd. rewrite head_reverse. intros H.
  apply trimStart_last in H. now rewrite last_reverse in H.
Qed.

Lemma trimEnd_last (s : list N) (c : N) :
  last (trimEnd s) = Some c -> is_white_space c = false.
Proof. unfold trimEnd. rewrite last_reverse. apply trimStart_head. Qed.

Lemma trim_tidy (s : list N) : tidy (trim s).
Proof.
  unfold trim. split; intros c H.
  - apply trimEnd_head in H. now apply trimStart_head in H.
  - now apply trimEnd_last in H.
Qed.

Lemma trim_nil (s : list N) :
  trim s = [] <-> Forall (fun c => is_white_space c = true) s.
Proof.
  rewrite <- trimStart_nil. unfold trim, trimEnd. split.
  - intros H. apply (f_equal reverse) in H.
    rewrite reverse_involutive in H. change (reverse []) with (@nil N) in H.
    apply trimStart_nil in H.
    destruct (trimStart s) as [ | c t ] eqn:T; [ done | ].
    assert (Hc : is_white_space c = false) by (apply (trimStart_head s); now rewrite T).
    apply Forall_reverse in H. rewrite reverse_involutive in H.
    inversion H; congruence.
  - now intros ->.
Qed.

End TrimFacts.

(** A user row after a request, compared with the row before: untouched,
    or the caller's row with its name replaced. *)
Definition kept_or_renamed (userId : string) (name : list N) (u u' : App.User.t) : Prop :=
  u' = u \/
  (App.User.id u = userId /\ App.User.id u' = userId /\
   App.User.name u' = Some name /\
   App.User.created_at u' = App.User.created_at u).

Section AppFacts.

Import App.

Lemma filter_user_id (userId : string) (l : list User.t) (u : User.t) :
  u ∈ filter (fun u => User.id u = userId) l -> User.id u = userId.
Proof. intros H. now apply list_elem_of_filter in H as [H _]. Qed.

Lemma select_user_id env userId w u :
  select_user env userId w = PgData u -> User.id u = userId.
Proof.
  unfold select_user. destruct (users_select_error env); [ discriminate | ].
  destruct (filter _ (users w)) as [ | u0 [ | ] ] eqn:F; try discriminate.
  intros [= <-]. apply (filter_user_id userId (users w)). rewrite F. now left.
Qed.

Lemma get_me_profile (env : Env) (userId : string) (w : World) :
  exists name created_at,
    get_me env userId w = mkReply 200 (Profile userId name created_at).
Proof.
  unfold get_me. destruct (select_user env userId w) as [u | m] eqn:S.
  - rewrite (select_user_id _ _ _ _ S). eauto.
  - eauto.
Qed.

(** X17. GET /api/me never fails and always answers for the caller: the
    status is 200 and the profile carries the caller's own id.  When the
    datastore holds exactly one row for the caller and reports no error,
    the name and creation time are that row's; in every other case they
    are null. *)
Theorem get_me_answers_for_caller :
  forall env userId w,
    exists name created_at,
      get_me env userId w = mkReply 200 (Profile userId name created_at) /\
      match users_select_error env,
            filter (fun u => User.id u = userId) (users w) with
      | None, [u] => name = User.name u /\ created_at = User.created_at u
      | _, _ => name = None /\ created_at = None
      end.
Proof.
  intros env userId w. unfold get_me, select_user.
  destruct (users_select_error env) as [m | ].
  { eexists _, _. split; [ reflexivity | done ]. }
  destruct (filter _ (users w)) as [ | u [ | u' l ] ] eqn:F;
    try (eexists _, _; split; [ reflexivity | done ]).
  assert (Hid : User.id u = userId).
  { apply (filter_user_id userId (users w)). rewrite F. now left. }
  rewrite Hid. eexists _, _. split; [ reflexivity | done ].
Qed.

Lemma post_me_guard (name : option value) :
  falsy name || negb (is_string name) || bool_decide (trimmed name = []) = false ->
  exists s, name = Some (VStr s) /\ trim s <> [].
Proof.
  destruct name as [ [ | [ | ] | n | s | ] | ]; simpl; try discriminate.
  - destruct (Req_dec_T n 0); discriminate.
  - intros H. apply orb_false_elim in H as [_ H].
    apply bool_decide_eq_false in H. eauto.
Qed.

(** X18. POST /api/me rejects every name that is not a string with
    something other than white space in it (missing, null, a number, a
    boolean, an object, the empty string, blanks only): the answer is 400
    and nothing is written. *)
Theorem post_me_requires_a_name :
  forall env userId name w,
    (forall s, name = Some (VStr s) -> Forall (fun c => is_white_space c = true) s) ->
    post_me env userId name w = (mkReply 400 (ErrorPayload "Name is required."), w).
Proof.
  intros env userId name w H. unfold post_me.
  destruct (falsy name || negb (is_string name) || bool_decide (trimmed name = []))
    eqn:G; [ reflexivity | ].
  apply post_me_guard in G as (s & -> & T).
  destruct T. apply trim_nil. now apply H.
Qed.

Lemma Forall2_kept_users (userId : string) (name : list N) (l : list User.t) :
  Forall2 (kept_or_renamed userId name) l l.
Proof. induction l; constructor; [ now left | done ]. Qed.

Lemma update_user_rows env userId name w r w' :
  update_user env userId name w = (r, w') ->
  Forall2 (kept_or_renamed userId name) (users w) (users w') /\
  entries w' = entries w /\ files w' = files w /\
  (forall u, r = PgData u -> User.id u = userId /\ User.name u = Some name).
Proof.
  unfold update_user. destruct (users_update_error env).
  { intros [= <- <-]. repeat split; try done. apply Forall2_kept_users. }
  set (rows := map (fun u => if decide (User.id u = userId)
                             then User.mk (User.id u) (Some name)
                                    (User.created_at u) (Some (now env))
                             else u) (users w)).
  destruct (filter (fun u => User.id u = userId) rows) as [ | u0 [ | u1 l ] ] eqn:F;
    intros [= <- <-];
    try (repeat split; try done; apply Forall2_kept_users).
  split; [ | split; [ done | split; [ done | ] ] ].
  - subst rows. simpl. clear F.
    induction (users w) as [ | u l IH ]; simpl; constructor; [ | exact IH ].
    destruct (decide (User.id u = userId)); [ right | left ]; done.
  - intros data [= <-].
    assert (Hin : u0 ∈ filter (fun u => User.id u = userId) rows)
      by (rewrite F; now left).
    apply list_elem_of_filter in Hin as [Hid Hin].
    split; [ exact Hid | ].
    apply list_elem_of_In, in_map_iff in Hin as (u1 & E & _).
    destruct (decide (User.id u1 = userId)); subst u0; [ done | ].
    congruence.
Qed.

(** X19. POST /api/me with a usable name always answers 200 with the
    caller's id and the trimmed name (which has no white space at its ends
    and is not empty), whether or not the datastore took the update; in the
    table only the caller's rows can change, and only by receiving that
    name. *)
Theorem post_me_answers_trimmed_name :
  forall env userId s w,
    trim s <> [] ->
    exists created_at w',
      post_me env userId (Some (VStr s)) w =
        (mkReply 200 (Profile userId (Some (trim s)) created_at), w') /\
      tidy (trim s) /\
      Forall2 (kept_or_renamed userId (trim s)) (users w) (users w') /\
      entries w' = entries w /\ files w' = files w.
Proof.
  intros env userId s w T. unfold post_me.
  assert (G : falsy (Some (VStr s)) || negb (is_string (Some (VStr s)))
              || bool_decide (trimmed (Some (VStr s)) = []) = false).
  { simpl. rewrite bool_decide_eq_false_2 by done.
    destruct s; [ now destruct T | reflexivity ]. }
  rewrite G. simpl trimmed.
  destruct (update_user env userId (trim s) w) as [[u | m] w'] eqn:U;
    destruct (update_user_rows _ _ _ _ _ _ U) as (R & E & F & D).
  - destruct (D u eq_refl) as [-> ->].
    eexists _, w'. split; [ reflexivity | ]. split; [ apply trim_tidy | done ].
  - eexists _, w'. split; [ reflexivity | ]. split; [ apply trim_tidy | done ].
Qed.

End AppFacts.

Section AppRoutes.

Import App.

(** X20. A request without a usable [uid] cookie (none, or an empty one)
    is given one: HTTP-only, same-site lax, valid for 365 days, secure
    exactly in production, holding the fresh identifier.  A request that
    sends that cookie back is not given another one, inserts no user, and
    GET /api/me answers it with the same identifier. *)
Theorem identity_cookie_round_trip :
  forall env cookie rt w,
    truthy cookie = None ->
    uuidv4 env <> "" ->
    exists c,
      set_cookie (fst (handle env (mkRequest cookie rt) w)) = Some c /\
      cookie_name c = "uid" /\
      cookie_value c = uuidv4 env /\
      httpOnly (options c) = true /\
      sameSite (options c) = "lax" /\
      maxAge (options c) = (365 * 86400000)%Z /\
      (secure (options c) = true <-> NODE_ENV env = Some "production") /\
      forall env2 w2,
        exists name created_at,
          handle env2 (mkRequest (Some (cookie_value c)) GetMe) w2 =
            (mkAnswer None (mkReply 200 (Profile (uuidv4 env) name created_at)) None,
             w2).
Proof.
  intros env cookie rt w C U.
  assert (E : exists w1, identity env cookie w =
                (Some (mkCookie "uid" (uuidv4 env)
                         (mkCookieOptions true "lax"
                            (bool_decide (NODE_ENV env = Some "production"))
                            (365 * 24 * 60 * 60 * 1000))),
                 uuidv4 env, w1)).
  { unfold identity. rewrite C. eauto. }
  destruct E as [w1 E].
  eexists. split.
  { unfold handle. simpl cookie_uid. rewrite E.
    destruct rt; simpl;
      repeat match goal with |- context [let '(_, _) := ?x in _] => destruct x as [[? ?] ?] || destruct x as [? ?] end;
      reflexivity. }
  simpl. repeat (split; [ try reflexivity | ]).
  - apply bool_decide_eq_true_1.
  - apply bool_decide_eq_true_2.
  - intros env2 w2.
    assert (T : truthy (Some (uuidv4 env)) = Some (uuidv4 env))
      by (destruct (uuidv4 env); [ now destruct U | reflexivity ]).
    unfold handle, identity. simpl cookie_uid. rewrite T. simpl.
    destruct (get_me_profile env2 (uuidv4 env) w2) as (n & t & ->).
    eauto.
Qed.

(** X21. POST /api/analyze always removes the uploaded temporary file:
    whatever the outcome (transcription stored, vision model failure,
    malformed model answer, datastore failure), after the route the file is
    gone, every other file is as it was, and no exception escapes. *)
Theorem analyze_removes_upload :
  forall env userId f w image,
    files w !! path f = Some image ->
    exists r w',
      analyze env userId (Some f) w = (r, None, w') /\
      files w' = delete (path f) (files w) /\
      users w' = users w /\
      (code r = 200%Z \/ code r = 500%Z).
Proof.
  intros env userId f w image F.
  unfold analyze, transcribe. rewrite F.
  destruct (vision env (mimetype f) image) as [response | m].
  2: { unfold unlinkSync. rewrite F. eexists _, _. repeat split. now right. }
  destruct (first_content response) as [text | m].
  2: { unfold unlinkSync. rewrite F. eexists _, _. repeat split. now right. }
  unfold insert_entry.
  destruct (entries_insert_error env) as [m | ];
    unfold unlinkSync; simpl; rewrite F; eexists _, _; repeat split; auto.
Qed.

Lemma transcribe_outcomes env userId f w outcome w1 :
  transcribe env userId f w = (outcome, w1) ->
  (exists text,
     outcome = Normal (mkReply 200
                         (Transcription text (entry_id env) (entry_created_at env))) /\
     entries w1 =
       entries w ++ [Entry.mk (entry_id env) text (Some userId) (entry_created_at env)])
  \/
  (exists m, outcome = Throw m /\ entries w1 = entries w).
Proof.
  intros T. unfold transcribe in T.
  destruct (files w !! path f) as [image | ];
    [ | simplify_eq; right; eauto ].
  destruct (vision env (mimetype f) image) as [response | m];
    [ | simplify_eq; right; eauto ].
  destruct (first_content response) as [text | m];
    [ | simplify_eq; right; eauto ].
  unfold insert_entry in T.
  destruct (entries_insert_error env) as [m | ]; simplify_eq.
  - right. eauto.
  - left. eauto.
Qed.

Lemma analyze_after_transcribe env userId f w r escaped w' :
  analyze env userId (Some f) w = (r, escaped, w') ->
  exists outcome w1,
    transcribe env userId f w = (outcome, w1) /\
    entries w' = entries w1 /\
    r = match outcome with
        | Normal r => r
        | Throw m => mkReply 500 (ErrorPayload (message_or_default m))
        end.
Proof.
  intros H. unfold analyze in H.
  destruct (transcribe env userId f w) as [outcome w1] eqn:T.
  exists outcome, w1. split; [ reflexivity | ].
  unfold unlinkSync in H. destruct (files w1 !! path f); now simplify_eq.
Qed.

(** X22. POST /api/analyze stores exactly what it answers.  A 200 answer
    carries the transcription and the id and time of one new entry, which
    is the only change to the entries and belongs to the caller; a 500
    answer carries a non-empty message and leaves the entries as they
    were. *)
Theorem analyze_stores_what_it_answers :
  forall env userId f w r escaped w',
    analyze env userId (Some f) w = (r, escaped, w') ->
    (exists text,
       r = mkReply 200 (Transcription text (entry_id env) (entry_created_at env)) /\
       entries w' =
         entries w ++ [Entry.mk (entry_id env) text (Some userId) (entry_created_at env)])
    \/
    (exists m, r = mkReply 500 (ErrorPayload m) /\ m <> "" /\ entries w' = entries w).
Proof.
  intros env userId f w r escaped w' H.
  apply analyze_after_transcribe in H as (outcome & w1 & T & -> & ->).
  apply transcribe_outcomes in T as [(text & -> & E) | (m & -> & E)].
  - left. eauto.
  - right. exists (message_or_default m). repeat split; [ | exact E ].
    destruct m; discriminate.
Qed.

#[local] Instance newer_first_transitive : Transitive newer_first.
Proof. intros a b c. unfold newer_first. lia. Qed.

#[local] Instance newer_first_total : Total newer_first.
Proof. intros a b. unfold newer_first. lia. Qed.

(** X23. GET /api/entries lists the caller's entries and no one else's:
    the answer holds exactly the stored entries whose [user_id] is the
    caller's, each once, the most recent first. *)
Theorem entries_are_the_callers_newest_first :
  forall env userId w,
    entries_select_error env = None ->
    exists l,
      get_entries env userId w = mkReply 200 (EntryList l) /\
      l ≡ₚ filter (fun e => Entry.user_id e = Some userId) (entries w) /\
      (forall e, e ∈ l <-> e ∈ entries w /\ Entry.user_id e = Some userId) /\
      (forall (i j : nat) a b,
         (i <= j)%nat -> l !! i = Some a -> l !! j = Some b ->
         (Entry.created_at b <= Entry.created_at a)%Z).
Proof.
  intros env userId w E. unfold get_entries. rewrite E.
  eexists. split; [ reflexivity | ]. unfold select_entries.
  split; [ apply merge_sort_Permutation | ]. split.
  - intros e. rewrite merge_sort_Permutation, list_elem_of_filter. tauto.
  - intros i j a b Hij Ha Hb.
    pose proof (StronglySorted_merge_sort newer_first
                  (filter (fun e => Entry.user_id e = Some userId) (entries w))) as S.
    revert i j a b Hij Ha Hb.
    induction S as [ | x l Sl IH Hx ]; intros i j a b Hij Ha Hb.
    + now rewrite lookup_nil in Ha.
    + destruct i as [ | i ], j as [ | j ]; simpl in Ha, Hb.
      * simplify_eq. lia.
      * simplify_eq. rewrite Forall_forall in Hx. apply Hx.
        now apply list_elem_of_lookup_2 in Hb.
      * lia.
      * apply (IH i j); [ lia | done | done ].
Qed.

(** X24. A transcription that was answered 200 is listed afterwards: the
    new entry is among the caller's entries, and the listing of every
    other user is what it was before the upload. *)
Theorem analyze_then_entries :
  forall env userId f w text id created_at escaped w',
    analyze env userId (Some f) w =
      (mkReply 200 (Transcription text id created_at), escaped, w') ->
    Entry.mk id text (Some userId) created_at ∈ select_entries userId w' /\
    forall other, other <> userId -> select_entries other w' = select_entries other w.
Proof.
  intros env userId f w text id created_at escaped w' H.
  apply analyze_after_transcribe in H as (outcome & w1 & T & E1 & R).
  apply transcribe_outcomes in T as [(text' & -> & E) | (m & -> & _)];
    [ | discriminate R ].
  injection R as -> -> ->. unfold select_entries. rewrite E1, E. split.
  - rewrite merge_sort_Permutation, list_elem_of_filter. split; [ done | ].
    apply elem_of_app. right. now left.
  - intros other Ho. rewrite filter_app, filter_cons_False, filter_nil, app_nil_r.
    + reflexivity.
    + simpl. congruence.
Qed.

End AppRoutes.

(** ** The further properties on sample data *)

Module Sample.

(** The edge function with a datastore that refuses updates. *)
Definition read_only_env : Env :=
  mkEnv (Some "key") Example.provider None (Some "permission denied")
    "2026-02-21T00:00:00.000Z".

Definition user_body (query : string) : Body.t :=
  Body.mk (Some "user") None None (Some query) None None ∅.

Definition user_request (query : string) : Request :=
  mkRequest "POST" (Normal (user_body query)).

(** A road-distance service that finds no route, and geocoders that cannot
    be reached for some addresses. *)
Definition no_route : Server.MatrixData :=
  Server.mkMatrixData
    (Some [Server.mkRow (Some [Server.mkElement (Some "ZERO_RESULTS") None None])]).

Definition no_route_env : Server.Env :=
  Example.server (fun _ _ => Normal no_route) Example.places Server.OfOrigin.

Definition unreachable (address : string) : Completion Server.GeocodeData :=
  if decide (address = "Offline") then Throw "fetch failed"
  else if decide (address = "Stalled") then Throw "socket hang up"
  else Example.places address.

Definition offline_env : Server.Env :=
  Example.server (fun _ _ => Normal Example.road) unreachable Server.OfOrigin.

(** The same services when the destination's lookup is the first to
    reject. *)
Definition destination_first_env : Server.Env :=
  Example.server (fun _ _ => Normal Example.road) unreachable Server.OfDestination.

(** The Express app: one known user with two entries, another user's
    entry, and an uploaded image waiting in [uploads/]. *)
Definition said (text : string) : Completion App.Vision.Response :=
  Normal (App.Vision.mkResponse
            (Some [App.Vision.mkChoice (Some (App.Vision.mkMessage (Some text)))])).

Definition app_env : App.Env :=
  App.mkEnv None "1b4e28ba-2fa1-4d3b-a3f5-ef19b5a7633b" "2026-02-21T00:00:00.000Z"
    None None None None None
    (Some "2026-02-21T00:00:00.000Z") "entry-3" 300
    (fun _ _ => said "Dear diary").

(** "Ada" *)
Definition ada : list N := [65; 100; 97]%N.

Definition app_world : App.World :=
  App.mkWorld
    [ App.User.mk "u1" None (Some "2026-02-01T00:00:00.000Z") None ]
    [ App.Entry.mk "entry-1" (Some "first") (Some "u1") 100;
      App.Entry.mk "entry-2" (Some "second") (Some "u2") 200 ]
    {[ "uploads/abc" := "image bytes" ]}.

Definition upload : App.File := App.mkFile "uploads/abc" "image/png".

End Sample.

Lemma facility_unknown_id_is_404_witness :
  serve Example.env (Example.resolve "zzz" "Nowhere") Example.world =
    (Normal (mkResponse 404
               (ErrorBody ("Facility lookup failed: " ++ single_row_error))),
     Example.world).
Proof.
  refine (facility_unknown_id_is_404 Example.env (Example.resolve "zzz" "Nowhere")
            Example.world (Example.resolve_body "zzz" "Nowhere") "zzz" "Nowhere"
            _ eq_refl eq_refl eq_refl eq_refl eq_refl _); discriminate.
Defined.

Lemma facility_update_failure_witness :
  serve Sample.read_only_env (Example.resolve "b" "Los Angeles, CA") Example.world =
    (Normal (mkResponse 500
               (ErrorBody ("Failed to cache coordinates: " ++ "permission denied"))),
     mkWorld (facilities Example.world) ["Los Angeles, CA"])
  /\ facilities (mkWorld (facilities Example.world) ["Los Angeles, CA"])
     = facilities Example.world
  /\ geocoder_calls (mkWorld (facilities Example.world) ["Los Angeles, CA"])
     = geocoder_calls Example.world ++ ["Los Angeles, CA"].
Proof.
  refine (facility_update_failure Sample.read_only_env
            (Example.resolve "b" "Los Angeles, CA") Example.world
            (Example.resolve_body "b" "Los Angeles, CA") "b" "Los Angeles, CA"
            Example.clinic_b Example.los_angeles _ "permission denied"
            _ eq_refl eq_refl eq_refl eq_refl (conj eq_refl eq_refl)
            (or_intror eq_refl) eq_refl eq_refl).
  discriminate.
Defined.

Lemma query_geocoder_failure_witness :
  exists w',
    serve Example.env (Sample.user_request "Nowhere") Example.world =
      (Normal (mkResponse 500
                 (ErrorBody "ZERO_RESULTS: no location found for the given address")),
       w') /\
    facilities w' = facilities Example.world.
Proof.
  apply (query_geocoder_failure Example.env (Sample.user_request "Nowhere")
           Example.world (Sample.user_body "Nowhere") "Nowhere").
  - discriminate.
  - reflexivity.
  - left. reflexivity.
  - reflexivity.
  - eapply NoResult; try reflexivity. eexists; reflexivity.
Defined.

Lemma nearest_keeps_every_match_witness :
  exists b st,
    json_body (Example.nearest None) = Normal b /\
    truthy (Body.state b) = Some st /\
    ((Z.of_nat (length (rows_matching (nearest_query b st) (facilities Example.world)))
      <= limit_or_30 (Body.limit b))%Z ->
     [with_distance Example.new_york Example.clinic_a]
       ≡ₚ map (with_distance Example.new_york)
            (rows_matching (nearest_query b st) (facilities Example.world))).
Proof.
  exact (nearest_keeps_every_match Example.env (Example.nearest None)
           Example.world _ _ _ _ eq_refl eq_refl).
Defined.

(** No route by road from New York to Los Angeles: the straight-line
    distance is answered, the driving figures are null. *)
Lemma driving_fields_need_ok_witness :
  Server.distance_route Sample.no_route_env
    (Some "New York, NY") (Some "Los Angeles, CA") =
    Server.mkReply 200
      (Server.DistanceReply None None (Some 0x1.31b3333333333p+11%float)
         (Some "ZERO_RESULTS"))
  /\ (@None string = None /\ @None string = None).
Proof.
  split; [ reflexivity | ].
  refine (driving_fields_need_ok Sample.no_route_env
            (Some "New York, NY") (Some "Los Angeles, CA")
            None None _ (Some "ZERO_RESULTS") eq_refl _).
  discriminate.
Defined.

(** The destination cannot be reached; then neither address can, and the
    destination's lookup is the first to reject. *)
Lemma distance_route_geocode_throw_witness :
  Server.distance_route Sample.offline_env (Some "New York, NY") (Some "Offline") =
    Server.mkReply 500 (Server.ErrorReply "fetch failed")
  /\
  Server.distance_route Sample.destination_first_env (Some "Stalled") (Some "Offline") =
    Server.mkReply 500 (Server.ErrorReply "fetch failed").
Proof.
  split.
  - refine (distance_route_geocode_throw Sample.offline_env
              (Some "New York, NY") (Some "Offline") _ _ _ _ "fetch failed"
              eq_refl eq_refl eq_refl eq_refl
              (or_intror (conj eq_refl (or_introl (ex_intro _ _ eq_refl))))).
  - refine (distance_route_geocode_throw Sample.destination_first_env
              (Some "Stalled") (Some "Offline") _ _ _ _ "fetch failed"
              eq_refl eq_refl eq_refl eq_refl
              (or_intror (conj eq_refl (or_intror eq_refl)))).
Defined.

Lemma nearest_page_keeps_the_nearest_witness :
  exists rest,
    [ IEEE.mkScored Example.clinic_a 0%float;
      IEEE.mkScored Example.clinic_d 0x1.ccccccccccccdp-1%float ] ++ rest
      ≡ₚ Example.scored /\
    forall a b,
      a ∈ [ IEEE.mkScored Example.clinic_a 0%float;
            IEEE.mkScored Example.clinic_d 0x1.ccccccccccccdp-1%float ] ->
      b ∈ rest ->
      (IEEE.distance_miles a <=? IEEE.distance_miles b)%float = true.
Proof.
  refine (nearest_page_keeps_the_nearest (Some 2%Z) Example.scored _).
  repeat constructor.
Defined.

Lemma straight_miles_is_a_distance_witness :
  is_finite 0x1.31b3333333333p+11%float = true /\
  exists origin destination a b,
    truthy (Some "New York, NY") = Some origin /\
    truthy (Some "Los Angeles, CA") = Some destination /\
    Server.geocode Example.server_env origin = Normal (Some a) /\
    Server.geocode Example.server_env destination = Normal (Some b) /\
    let r :=
      IEEE.round1
        (Server.haversine Example.server_env (Server.lat a) (Server.lng a)
           (Server.lat b) (Server.lng b)) in
    is_finite r = true /\
    (0x1.31b3333333333p+11%float = r \/
     (is_zero r = true /\ 0x1.31b3333333333p+11%float = 0%float)).
Proof.
  exact (straight_miles_is_a_distance Example.server_env
           (Some "New York, NY") (Some "Los Angeles, CA")
           _ _ _ _ eq_refl).
Defined.

(** C4 as stated fails: the road-distance service answers with a distance
    and a duration, the lookup of the destination throws (the geocoder
    cannot be reached), and the route answers 500 with that message; the
    driving figures that were obtained are not returned. *)
Lemma distance_geocode_throw_is_500 :
  Server.distance_matrix_api Sample.offline_env "New York, NY" "Offline"
    = Normal Example.road /\
  Server.driving (Server.first_element Example.road)
    = Normal (Some "2,789 mi", Some "41 hours") /\
  Server.geocode Sample.offline_env "New York, NY"
    = Normal (Some Example.new_york_place) /\
  Server.geocode Sample.offline_env "Offline" = Throw "fetch failed" /\
  Server.distance_route Sample.offline_env (Some "New York, NY") (Some "Offline") =
    Server.mkReply 500 (Server.ErrorReply "fetch failed").
Proof. repeat split. Qed.

Lemma post_me_requires_a_name_witness :
  App.post_me Sample.app_env "u1" (Some (App.VStr [32; 9; 160]%N)) Sample.app_world =
    (App.mkReply 400 (App.ErrorPayload "Name is required."), Sample.app_world).
Proof.
  apply (post_me_requires_a_name Sample.app_env "u1").
  intros s [= <-]. repeat constructor.
Defined.

(** " Ada " is stored and answered as "Ada". *)
Lemma post_me_answers_trimmed_name_witness :
  exists created_at w',
    App.post_me Sample.app_env "u1" (Some (App.VStr (32 :: Sample.ada ++ [32])%N))
      Sample.app_world =
      (App.mkReply 200 (App.Profile "u1" (Some Sample.ada) created_at), w') /\
    tidy Sample.ada /\
    Forall2 (kept_or_renamed "u1" Sample.ada)
      (App.users Sample.app_world) (App.users w') /\
    App.entries w' = App.entries Sample.app_world /\
    App.files w' = App.files Sample.app_world.
Proof.
  refine (post_me_answers_trimmed_name Sample.app_env "u1"
            (32 :: Sample.ada ++ [32])%N Sample.app_world _).
  discriminate.
Defined.

Lemma identity_cookie_round_trip_witness :
  exists c,
    App.set_cookie (fst (App.handle Sample.app_env (App.mkRequest None App.GetEntries)
                           Sample.app_world)) = Some c /\
    App.cookie_name c = "uid" /\
    App.cookie_value c = App.uuidv4 Sample.app_env /\
    App.httpOnly (App.options c) = true /\
    App.sameSite (App.options c) = "lax" /\
    App.maxAge (App.options c) = (365 * 86400000)%Z /\
    (App.secure (App.options c) = true <-> App.NODE_ENV Sample.app_env = Some "production") /\
    forall env2 w2,
      exists name created_at,
        App.handle env2 (App.mkRequest (Some (App.cookie_value c)) App.GetMe) w2 =
          (App.mkAnswer None
             (App.mkReply 200 (App.Profile (App.uuidv4 Sample.app_env) name created_at))
             None,
           w2).
Proof.
  refine (identity_cookie_round_trip Sample.app_env None App.GetEntries
            Sample.app_world eq_refl _).
  discriminate.
Defined.

Lemma analyze_removes_upload_witness :
  exists r w',
    App.analyze Sample.app_env "u1" (Some Sample.upload) Sample.app_world = (r, None, w') /\
    App.files w' = delete (App.path Sample.upload) (App.files Sample.app_world) /\
    App.users w' = App.users Sample.app_world /\
    (App.code r = 200%Z \/ App.code r = 500%Z).
Proof.
  exact (analyze_removes_upload Sample.app_env "u1" Sample.upload
           Sample.app_world "image bytes" eq_refl).
Defined.

Lemma analyze_stores_what_it_answers_witness :
  (exists text,
     App.mkReply 200 (App.Transcription (Some "Dear diary") "entry-3" 300) =
       App.mkReply 200 (App.Transcription text (App.entry_id Sample.app_env)
                          (App.entry_created_at Sample.app_env)) /\
     App.entries
       (snd (App.analyze Sample.app_env "u1" (Some Sample.upload) Sample.app_world)) =
       App.entries Sample.app_world ++
         [App.Entry.mk (App.entry_id Sample.app_env) text (Some "u1")
            (App.entry_created_at Sample.app_env)])
  \/
  (exists m,
     App.mkReply 200 (App.Transcription (Some "Dear diary") "entry-3" 300) =
       App.mkReply 500 (App.ErrorPayload m) /\ m <> "" /\
     App.entries
       (snd (App.analyze Sample.app_env "u1" (Some Sample.upload) Sample.app_world)) =
       App.entries Sample.app_world).
Proof.
  exact (analyze_stores_what_it_answers Sample.app_env "u1" Sample.upload
           Sample.app_world _ None _ eq_refl).
Defined.

Lemma entries_are_the_callers_newest_first_witness :
  exists l,
    App.get_entries Sample.app_env "u1" Sample.app_world =
      App.mkReply 200 (App.EntryList l) /\
    l ≡ₚ filter (fun e => App.Entry.user_id e = Some "u1") (App.entries Sample.app_world) /\
    (forall e, e ∈ l <->
       e ∈ App.entries Sample.app_world /\ App.Entry.user_id e = Some "u1") /\
    (forall (i j : nat) a b,
       (i <= j)%nat -> l !! i = Some a -> l !! j = Some b ->
       (App.Entry.created_at b <= App.Entry.created_at a)%Z).
Proof.
  exact (entries_are_the_callers_newest_first Sample.app_env "u1"
           Sample.app_world eq_refl).
Defined.

Lemma analyze_then_entries_witness :
  App.Entry.mk "entry-3" (Some "Dear diary") (Some "u1") 300
    ∈ App.select_entries "u1"
        (snd (App.analyze Sample.app_env "u1" (Some Sample.upload) Sample.app_world)) /\
  forall other, other <> "u1" ->
    App.select_entries other
      (snd (App.analyze Sample.app_env "u1" (Some Sample.upload) Sample.app_world)) =
    App.select_entries other Sample.app_world.
Proof.
  exact (analyze_then_entries Sample.app_env "u1" Sample.upload
           Sample.app_world _ _ _ None _ eq_refl).
Defined.
